(** * rag-init: incremental indexing ledger, reconciliation and re-ranking

    A shallow embedding of the TypeScript services
    - [DocumentLoaderService.getAllFiles]     (document-loader.service.ts),
    - [IndexingHistoryService]                (indexing-history.service.ts),
    - [RagService.incrementalIndexDirectory],
      [RagService.query], [RagService.extractCompanyName] (rag.service.ts),
    and the properties the specification states about them.

    Conventions.  A JavaScript string is a [string] holding its UTF-8 bytes;
    on well-formed text, substring and prefix tests on the bytes agree with
    [String.prototype.includes] and [startsWith].  A [Map<string, V>] is a
    [gmap string V]; the order in which a [Map] is iterated only reaches log
    lines and is not modelled.  [Record<string, any>] metadata is a
    [gmap string string]: an absent key is [undefined], and values other than
    strings are outside the model.  Code that can throw returns an [Outcome];
    code that also mutates service fields or the outside world is a state
    transformer [M].  Informational [logger.log]/[console.log] lines are left
    out; warnings and errors are kept in the state's log. *)

From stdpp Require Import base strings list gmap pretty.

Set Default Proof Using "Type".

(** ** Exceptions *)

Inductive Outcome (A : Type) : Type :=
  | Returned (a : A)
  | Thrown (message : string).
Arguments Returned {A} a.
Arguments Thrown {A} message.

Definition returns {A} (o : Outcome A) : bool :=
  match o with Returned _ => true | Thrown _ => false end.

Definition obind {A B} (o : Outcome A) (k : A → Outcome B) : Outcome B :=
  match o with
  | Returned a => k a
  | Thrown e => Thrown e
  end.

Notation "'await' x ':=' o 'in' k" := (obind o (λ x, k))
  (at level 10, x name, o at level 100, k at level 200,
   format "'await'  x  ':='  o  'in' '//' k").

(** ** JavaScript string and array primitives *)

Module Js.

(** [s.includes(t)] *)
Fixpoint includes (s t : string) : bool :=
  String.prefix t s ||
  match s with
  | EmptyString => false
  | String _ s' => includes s' t
  end.

(** [s.startsWith(t)] *)
Definition startsWith (s t : string) : bool := String.prefix t s.

(** [a.join(sep)] *)
Fixpoint join (sep : string) (a : list string) : string :=
  match a with
  | [] => EmptyString
  | [x] => x
  | x :: rest => x +:+ sep +:+ join sep rest
  end.

(** The separator ['\n\n'] of [query]'s context. *)
Definition blankLine : string :=
  String (Ascii.ascii_of_nat 10) (String (Ascii.ascii_of_nat 10) EmptyString).

(** [a.slice(0, n)] *)
Definition slice0 {A} (n : nat) (a : list A) : list A := take n a.

(** Truthiness of a string: only [''] is falsy. *)
Definition truthy (v : string) : bool :=
  match v with
  | EmptyString => false
  | String _ _ => true
  end.

(** [v || ''] for [v : string | undefined] *)
Definition orEmpty (v : option string) : string := default EmptyString v.

(** [`${v}`] for [v : string | undefined] *)
Definition interpolate (v : option string) : string := default "undefined" v.

(** ASCII case folding: what [String.prototype.toLowerCase] does on text
    whose only cased letters are A–Z (every other byte is kept). *)
Definition lowerAscii (c : Ascii.ascii) : Ascii.ascii :=
  let n := Ascii.nat_of_ascii c in
  if (65 <=? n)%nat && (n <=? 90)%nat then Ascii.ascii_of_nat (n + 32) else c.

Fixpoint toLowerCaseAscii (s : string) : string :=
  match s with
  | EmptyString => EmptyString
  | String c s' => String (lowerAscii c) (toLowerCaseAscii s')
  end.

End Js.

(** ** LangChain documents and loader output *)

Module Document.
(** [Document] of [@langchain/core/documents] *)
Record t := {
  pageContent : string;
  metadata : gmap string string;
}.
End Document.

Module Loaded.
(** The [{ content, metadata }] pairs [DocumentLoaderService] returns. *)
Record t := {
  content : string;
  metadata : gmap string string;
}.
End Loaded.

(** ** State monad with exceptions *)

Section Monad.
Context {S : Type}.

Definition M (A : Type) : Type := S → Outcome A * S.

Definition ret {A} (a : A) : M A := λ s, (Returned a, s).

Definition throw {A} (message : string) : M A := λ s, (Thrown message, s).

Definition lift {A} (o : Outcome A) : M A := λ s, (o, s).

Definition bind {A B} (m : M A) (k : A → M B) : M B := λ s,
  match m s with
  | (Returned a, s') => k a s'
  | (Thrown e, s') => (Thrown e, s')
  end.

(** [try { body } catch (error) { handler(error.message) }]: what the body
    did to the state before it threw stays done. *)
Definition tryCatch {A} (body : M A) (handler : string → M A) : M A := λ s,
  match body s with
  | (Returned a, s') => (Returned a, s')
  | (Thrown e, s') => handler e s'
  end.

Definition gets {A} (f : S → A) : M A := λ s, (Returned (f s), s).

Definition modify (f : S → S) : M unit := λ s, (Returned tt, f s).

(** [for (const x of xs) { body(x) }] *)
Fixpoint forEach {A} (body : A → M unit) (xs : list A) : M unit :=
  match xs with
  | [] => ret tt
  | x :: rest => bind (body x) (λ _, forEach body rest)
  end.
End Monad.
Arguments M S A : clear implicits.

Notation "'call' x ':=' m 'in' k" := (bind m (λ x, k))
  (at level 10, x name, m at level 100, k at level 200,
   format "'call'  x  ':='  m  'in' '//' k").
Notation "'exec' m 'in' k" := (bind m (λ _, k))
  (at level 10, m at level 100, k at level 200,
   format "'exec'  m  'in' '//' k").

(** ** DocumentLoaderService: the directory scan *)

Module DocumentLoader.

(** What [fs.statSync] finds at a directory entry.  [Dangling] is an entry
    on which [statSync] throws (a symbolic link to nothing).  Trees are
    finite: directory cycles through links are outside the model. *)
#[warnings="-register-all"]
Inductive Node :=
  | File
  | Dir (items : list (string * Node))
  | Dangling.

(** [path.join(dirPath, item)] for a [dirPath] without a trailing separator
    and an [item] that is a single name. *)
Definition path_join (dirPath item : string) : string :=
  dirPath +:+ "/" +:+ item.

(** The [for] loop of [getAllFiles] over the entries of [dirPath]: [files]
    is the array built so far, [scan] the recursive call. *)
Definition scanItems (scan : string → Node → Outcome (list string))
  (dirPath : string) (recursive : bool)
  : list (string * Node) → list string → Outcome (list string) :=
  fix loop (items : list (string * Node)) (files : list string) :=
    match items with
    | [] => Returned files
    | (item, stat) :: rest =>
        let fullPath := path_join dirPath item in
        match stat with
        | Dangling => Thrown "ENOENT"
        | Dir _ =>
            if recursive then
              await sub := scan fullPath stat in
              loop rest (files ++ sub)
            else loop rest files
        | File =>
            if negb (Js.startsWith item ".")
            then loop rest (files ++ [fullPath])
            else loop rest files
        end
    end.

(** [DocumentLoaderService.getAllFiles]; [node] is what lies at [dirPath].
    [fs.readdirSync] throws on anything but a directory. *)
Fixpoint getAllFiles (dirPath : string) (node : Node) (recursive : bool)
  : Outcome (list string) :=
  match node with
  | Dir items =>
      scanItems (λ fullPath stat, getAllFiles fullPath stat recursive)
        dirPath recursive items []
  | File => Thrown "ENOTDIR"
  | Dangling => Thrown "ENOENT"
  end.

(** The file entries a scan of [dirPath] comes across, as (directory, name):
    those of the directory itself and, when recursive, those of every
    directory below it, whatever the directories are called. *)
Inductive Reaches (recursive : bool)
  : string → Node → string → string → Prop :=
  | reaches_here dirPath items item :
      (item, File) ∈ items →
      Reaches recursive dirPath (Dir items) dirPath item
  | reaches_below dirPath items name sub parent item :
      recursive = true →
      (name, Dir sub) ∈ items →
      Reaches recursive (path_join dirPath name) (Dir sub) parent item →
      Reaches recursive dirPath (Dir items) parent item.

(** [Promise.all(filePaths.map(loadFromFile))]: every file loaded, in
    order, or the rejection of a file that failed. *)
Fixpoint loadFromFiles (loadFromFile : string → Outcome Loaded.t)
  (filePaths : list string) : Outcome (list Loaded.t) :=
  match filePaths with
  | [] => Returned []
  | p :: rest =>
      await doc := loadFromFile p in
      await docs := loadFromFiles loadFromFile rest in
      Returned (doc :: docs)
  end.

(** [DocumentLoaderService.loadFromDirectory] *)
Definition loadFromDirectory (loadFromFile : string → Outcome Loaded.t)
  (dirPath : string) (node : Node) (recursive : bool)
  : Outcome (list Loaded.t) :=
  await files := getAllFiles dirPath node recursive in
  loadFromFiles loadFromFile files.


End DocumentLoader.

(** ** The world outside the services *)

(** [FileIndexInfo] of indexing-history.service.ts *)
Record FileIndexInfo := {
  hash : string;
  modifiedTime : string;
  chunkCount : nat;
  indexedAt : string;
}.

(** The text of the ledger file, up to what [JSON.parse] and
    [Object.entries] make of it: [Garbage] is any text on which one of them
    throws (the empty text of a truncated file included); [JsonOf records] is
    what [JSON.stringify(Object.fromEntries(records), null, 2)] writes.
    Text that parses to anything else than a map of such records is outside
    the model. *)
Inductive FileText :=
  | Garbage
  | JsonOf (records : gmap string FileIndexInfo).

(** [.indexing-history.json] in the working directory. *)
Inductive LedgerFile :=
  | NoFile
  | Unreadable
  | Content (data : FileText).

(** How a call of [fs.writeFileSync] on the ledger file ends: a failed write
    leaves the file as it was, or truncated when it failed after opening. *)
Inductive WriteOutcome :=
  | Written
  | WriteFailed (message : string) (truncated : bool).

(** What [FileHashUtil.getFileInfo] returns. *)
Record FileInfo := {
  fileHash : string;
  fileModifiedTime : string;
  fileSize : nat;
}.

Inductive LogLevel := Warn | Error.

(** The mutable part: the fields of the services and the ledger file. *)
Record State := {
  (** [IndexingHistoryService.history] *)
  history : gmap string FileIndexInfo;
  ledgerFile : LedgerFile;
  (** the chunks the vector store has accepted, oldest first *)
  vectorStore : list Document.t;
  (** [logger.warn] and [logger.error] lines, newest first *)
  logged : list (LogLevel * string);
  (** how many times [new Date()] was evaluated *)
  dateCalls : nat;
  (** how many times the ledger file was written to *)
  writeCalls : nat;
}.

(** The part the services only call into. *)
Record Env := {
  (** the file system under a directory path, as the scan sees it *)
  readTree : string → DocumentLoader.Node;
  (** [DocumentLoaderService.loadFromFile] *)
  loadFromFile : string → Outcome Loaded.t;
  (** [FileHashUtil.getFileInfo]: throws when the file cannot be read *)
  getFileInfo : string → Outcome FileInfo;
  (** [fs.existsSync] on the paths the ledger records *)
  existsSync : string → bool;
  (** the outcome of the n-th write of the ledger file *)
  writeFileSync : nat → WriteOutcome;
  (** [new Date().toISOString()] at the n-th evaluation *)
  toISOString : nat → string;
  (** [ChunkingService.splitTexts(texts, metadata?)] *)
  splitTexts : list string → option (list (gmap string string))
               → Outcome (list Document.t);
  (** [VectorStoreService.addDocuments(documents)], given what the store
      holds: embeds and upserts, or throws *)
  vectorStoreAdd : list Document.t → list Document.t → Outcome unit;
}.

Definition setHistory (f : gmap string FileIndexInfo → gmap string FileIndexInfo)
  (s : State) : State :=
  {| history := f (history s); ledgerFile := ledgerFile s;
     vectorStore := vectorStore s; logged := logged s;
     dateCalls := dateCalls s; writeCalls := writeCalls s |}.

Definition setLedgerFile (f : LedgerFile) (s : State) : State :=
  {| history := history s; ledgerFile := f;
     vectorStore := vectorStore s; logged := logged s;
     dateCalls := dateCalls s; writeCalls := writeCalls s |}.

Definition setVectorStore (v : list Document.t) (s : State) : State :=
  {| history := history s; ledgerFile := ledgerFile s;
     vectorStore := v; logged := logged s;
     dateCalls := dateCalls s; writeCalls := writeCalls s |}.

Definition addLog (level : LogLevel) (message : string) (s : State) : State :=
  {| history := history s; ledgerFile := ledgerFile s;
     vectorStore := vectorStore s; logged := (level, message) :: logged s;
     dateCalls := dateCalls s; writeCalls := writeCalls s |}.

Definition tickDate (s : State) : State :=
  {| history := history s; ledgerFile := ledgerFile s;
     vectorStore := vectorStore s; logged := logged s;
     dateCalls := Datatypes.S (dateCalls s); writeCalls := writeCalls s |}.

Definition tickWrite (s : State) : State :=
  {| history := history s; ledgerFile := ledgerFile s;
     vectorStore := vectorStore s; logged := logged s;
     dateCalls := dateCalls s; writeCalls := Datatypes.S (writeCalls s) |}.

Definition logger_warn (message : string) : M State unit :=
  modify (addLog Warn message).

Definition logger_error (message : string) : M State unit :=
  modify (addLog Error message).

(** ** IndexingHistoryService *)

Module IndexingHistory.
Section WithEnv.
Variable E : Env.

(** [fs.existsSync(this.historyFilePath)] *)
Definition historyFileExists : M State bool :=
  gets (λ s, match ledgerFile s with NoFile => false | _ => true end).

(** [fs.readFileSync(this.historyFilePath, 'utf-8')] *)
Definition readHistoryFile : M State FileText := λ s,
  match ledgerFile s with
  | Content data => (Returned data, s)
  | NoFile => (Thrown "ENOENT", s)
  | Unreadable => (Thrown "EACCES", s)
  end.

(** [Object.entries(JSON.parse(data))] *)
Definition JSON_parse (data : FileText) : Outcome (gmap string FileIndexInfo) :=
  match data with
  | JsonOf records => Returned records
  | Garbage => Thrown "Unexpected token in JSON"
  end.

(** [JSON.stringify(Object.fromEntries(this.history), null, 2)] *)
Definition JSON_stringify (records : gmap string FileIndexInfo) : FileText :=
  JsonOf records.

(** [fs.writeFileSync(this.historyFilePath, data, 'utf-8')] *)
Definition writeHistoryFile (data : FileText) : M State unit := λ s,
  match writeFileSync E (writeCalls s) with
  | Written => (Returned tt, setLedgerFile (Content data) (tickWrite s))
  | WriteFailed e truncated =>
      (Thrown e,
       if truncated then setLedgerFile (Content Garbage) (tickWrite s)
       else tickWrite s)
  end.

(** [loadHistory]: the [try] block returns the parsed map, or falls
    through ([None]) to the final [return new Map()]. *)
Definition loadHistory : M State (gmap string FileIndexInfo) :=
  call parsed :=
    tryCatch
      (call present := historyFileExists in
       if present then
         call data := readHistoryFile in
         call obj := lift (JSON_parse data) in
         ret (Some obj)
       else ret None)
      (λ message,
         exec logger_warn ("히스토리 로드 실패: " +:+ message) in
         ret None) in
  ret (default ∅ parsed).

(** [constructor] *)
Definition construct : M State unit :=
  call loaded := loadHistory in
  modify (setHistory (λ _, loaded)).

(** [saveHistory] *)
Definition saveHistory : M State unit :=
  tryCatch
    (call obj := gets history in
     writeHistoryFile (JSON_stringify obj))
    (λ message, logger_error ("히스토리 저장 실패: " +:+ message)).

(** [new Date().toISOString()] *)
Definition nowISOString : M State string := λ s,
  (Returned (toISOString E (dateCalls s)), tickDate s).

(** [recordIndexing] *)
Definition recordIndexing (filePath hash modifiedTime : string)
  (chunkCount : nat) : M State unit :=
  call indexedAt := nowISOString in
  exec modify (setHistory (λ h,
    <[filePath := {| hash := hash; modifiedTime := modifiedTime;
                     chunkCount := chunkCount; indexedAt := indexedAt |}]> h)) in
  saveHistory.

(** [isIndexed] *)
Definition isIndexed (filePath : string) : M State bool :=
  gets (λ s, bool_decide (is_Some (history s !! filePath))).

(** [hasChanged] *)
Definition hasChanged (filePath currentHash : string) : M State bool :=
  gets (λ s,
    match history s !! filePath with
    | None => true
    | Some record => negb (String.eqb (hash record) currentHash)
    end).

(** [removeRecord] *)
Definition removeRecord (filePath : string) : M State unit :=
  exec modify (setHistory (delete filePath)) in
  saveHistory.

(** [findDeletedFiles] *)
Definition findDeletedFiles : M State (list string) :=
  gets (λ s,
    List.filter (λ filePath, negb (existsSync E filePath))
                (map_to_list (history s)).*1).

(** [clearHistory] *)
Definition clearHistory : M State unit :=
  exec modify (setHistory (λ _, ∅)) in
  saveHistory.

End WithEnv.

(** [getFileInfo]: [history.get(filePath) || null] (named apart from
    [FileHashUtil.getFileInfo]) *)
Definition getFileIndexInfo (filePath : string)
  : M State (option FileIndexInfo) :=
  gets (λ s, history s !! filePath).

(** [getAllRecords]: a copy of the map *)
Definition getAllRecords : M State (gmap string FileIndexInfo) :=
  gets history.

(** What [getStats] returns; [None] is [null]. *)
Record Stats := {
  totalFiles : nat;
  totalChunks : nat;
  lastIndexedAt : option string;
}.

Section Stats.
(** [a > b] on strings *)
Variable greater : string → string → bool.

(** The body of the [for] loop of [getStats]. *)
Definition addRecord (acc : nat * option string) (record : FileIndexInfo)
  : nat * option string :=
  let '(totalChunks, lastIndexedAt) := acc in
  (totalChunks + chunkCount record,
   match lastIndexedAt with
   | None => Some (indexedAt record)
   | Some last =>
       if negb (Js.truthy last) || greater (indexedAt record) last
       then Some (indexedAt record)
       else Some last
   end).

(** [getStats] *)
Definition getStats : M State Stats :=
  gets (λ s,
    let '(totalChunks, lastIndexedAt) :=
      foldl addRecord (0, None) (map_to_list (history s)).*2 in
    {| totalFiles := size (history s);
       totalChunks := totalChunks;
       lastIndexedAt := lastIndexedAt |}).
End Stats.

(** The chunks the ledger accounts for. *)
Definition chunksOf (m : gmap string FileIndexInfo) : nat :=
  sum_list_with (λ entry, chunkCount entry.2) (map_to_list m).

End IndexingHistory.

(** ** RagService: incremental indexing *)

Module Tally.
(** The local counters of [incrementalIndexDirectory]. *)
Record t := { added : nat; updated : nat; skipped : nat }.
Definition zero : t := {| added := 0; updated := 0; skipped := 0 |}.
Definition sum (c : t) : nat := added c + updated c + skipped c.
End Tally.

Module Rag.

(** The object [incrementalIndexDirectory] resolves to. *)
Record Result := {
  added : nat;
  updated : nat;
  deleted : nat;
  skipped : nat;
  total : nat;
}.

Section WithEnv.
Variable E : Env.

(** [VectorStoreService.addDocuments] *)
Definition vectorStore_addDocuments (documents : list Document.t)
  : M State unit := λ s,
  match vectorStoreAdd E (vectorStore s) documents with
  | Returned _ => (Returned tt, setVectorStore (vectorStore s ++ documents) s)
  | Thrown e => (Thrown e, s)
  end.

(** [RagService.addDocuments] *)
Definition addDocuments (texts : list string)
  (metadata : list (gmap string string)) : M State unit :=
  call splitDocs := lift (splitTexts E texts (Some metadata)) in
  vectorStore_addDocuments splitDocs.

(** [RagService.getChunkCount] *)
Definition getChunkCount (text : string) : M State nat :=
  call docs := lift (splitTexts E [text] None) in
  ret (length docs).

(** The [try] block of the per-file loop, for the counters [c] it found. *)
Definition indexFile (doc : Loaded.t) (c : Tally.t) : M State Tally.t :=
  match Loaded.metadata doc !! "filePath" with
  | None => throw "The path argument must be of type string"
  | Some filePath =>
      call fileInfo := lift (getFileInfo E filePath) in
      call indexed := IndexingHistory.isIndexed filePath in
      if indexed then
        call changed :=
          IndexingHistory.hasChanged filePath (fileHash fileInfo) in
        if changed then
          exec addDocuments [Loaded.content doc] [Loaded.metadata doc] in
          call chunkCount := getChunkCount (Loaded.content doc) in
          exec IndexingHistory.recordIndexing E filePath (fileHash fileInfo)
                 (fileModifiedTime fileInfo) chunkCount in
          ret {| Tally.added := Tally.added c;
                 Tally.updated := Tally.updated c + 1;
                 Tally.skipped := Tally.skipped c |}
        else
          ret {| Tally.added := Tally.added c;
                 Tally.updated := Tally.updated c;
                 Tally.skipped := Tally.skipped c + 1 |}
      else
        exec addDocuments [Loaded.content doc] [Loaded.metadata doc] in
        call chunkCount := getChunkCount (Loaded.content doc) in
        exec IndexingHistory.recordIndexing E filePath (fileHash fileInfo)
               (fileModifiedTime fileInfo) chunkCount in
        ret {| Tally.added := Tally.added c + 1;
               Tally.updated := Tally.updated c;
               Tally.skipped := Tally.skipped c |}
  end.

(** One iteration of the loop: the [try] block and its [catch]. *)
Definition processFile (doc : Loaded.t) (c : Tally.t) : M State Tally.t :=
  tryCatch (indexFile doc c)
    (λ message,
       exec logger_error
         ("❌ 처리 실패: " +:+
          Js.interpolate (Loaded.metadata doc !! "fileName")) in
       ret c).

(** [for (const doc of documents) { ... }] *)
Fixpoint processFiles (documents : list Loaded.t) (c : Tally.t)
  : M State Tally.t :=
  match documents with
  | [] => ret c
  | doc :: rest =>
      call c' := processFile doc c in
      processFiles rest c'
  end.

(** Step 3: deleted-file detection; returns [deleted]. *)
Definition removeDeleted : M State nat :=
  call deletedFiles := IndexingHistory.findDeletedFiles E in
  let deleted := length deletedFiles in
  exec (if (0 <? deleted)%nat then
          exec forEach (IndexingHistory.removeRecord E) deletedFiles in
          logger_warn
            "⚠️  벡터 DB에서 삭제된 파일의 청크를 수동으로 제거해야 합니다."
        else ret tt) in
  ret deleted.

(** [RagService.incrementalIndexDirectory] *)
Definition incrementalIndexDirectory (dirPath : string) (recursive : bool)
  : M State Result :=
  call documents :=
    lift (DocumentLoader.loadFromDirectory (loadFromFile E)
            dirPath (readTree E dirPath) recursive) in
  call c := processFiles documents Tally.zero in
  call deleted := removeDeleted in
  let total := Tally.added c + Tally.updated c + Tally.skipped c in
  ret {| added := Tally.added c;
         updated := Tally.updated c;
         deleted := deleted;
         skipped := Tally.skipped c;
         total := total |}.


(** [RagService.loadDocumentsFromDirectory] *)
Definition loadDocumentsFromDirectory (dirPath : string) (recursive : bool)
  : M State nat :=
  call documents :=
    lift (DocumentLoader.loadFromDirectory (loadFromFile E)
            dirPath (readTree E dirPath) recursive) in
  let texts := Loaded.content <$> documents in
  let metadata := Loaded.metadata <$> documents in
  exec addDocuments texts metadata in
  ret (length documents).

(** [RagService.getIndexingStats] *)
Definition getIndexingStats (greater : string → string → bool)
  : M State IndexingHistory.Stats :=
  IndexingHistory.getStats greater.

(** [RagService.clearIndexingHistory] *)
Definition clearIndexingHistory : M State unit :=
  IndexingHistory.clearHistory E.

(** The four ends of one iteration (specification, 4.3), [Failed] being the
    [catch]. *)
Inductive Branch := New | Changed | Unchanged | Failed.

Definition tallyAfter (b : Branch) (c : Tally.t) : Tally.t :=
  match b with
  | New =>
      {| Tally.added := Tally.added c + 1; Tally.updated := Tally.updated c;
         Tally.skipped := Tally.skipped c |}
  | Changed =>
      {| Tally.added := Tally.added c; Tally.updated := Tally.updated c + 1;
         Tally.skipped := Tally.skipped c |}
  | Unchanged =>
      {| Tally.added := Tally.added c; Tally.updated := Tally.updated c;
         Tally.skipped := Tally.skipped c + 1 |}
  | Failed => c
  end.

(** The number of documents whose [try] block runs to its end, along the
    states the loop goes through. *)
Fixpoint countIndexed (documents : list Loaded.t) (c : Tally.t) (s : State)
  : nat :=
  match documents with
  | [] => 0
  | doc :: rest =>
      (if returns (indexFile doc c s).1 then 1 else 0) +
      match processFile doc c s with
      | (Returned c', s') => countIndexed rest c' s'
      | (Thrown _, s') => countIndexed rest c s'
      end
  end.

(** The ledger records the path with the hash the file has now. *)
Definition upToDate (s : State) (filePath : option string) : Prop :=
  ∃ p info record,
    filePath = Some p ∧ getFileInfo E p = Returned info ∧
    history s !! p = Some record ∧ hash record = fileHash info.

(** Chunking and the vector store accept the document in state [s]. *)
Definition indexable (s : State) (doc : Loaded.t) : Prop :=
  ∃ chunks counted,
    splitTexts E [Loaded.content doc] (Some [Loaded.metadata doc])
    = Returned chunks ∧
    vectorStoreAdd E (vectorStore s) chunks = Returned tt ∧
    splitTexts E [Loaded.content doc] None = Returned counted.

(** The paths [findDeletedFiles] returns in state [s]. *)
Definition missingPaths (s : State) : list string :=
  List.filter (λ filePath, negb (existsSync E filePath))
              (map_to_list (history s)).*1.

End WithEnv.

(** [doc.metadata.filePath] of the scanned documents *)
Definition filePaths (documents : list Loaded.t) : list (option string) :=
  (λ doc, Loaded.metadata doc !! "filePath") <$> documents.

End Rag.

(** ** RagService: retrieval and re-ranking *)

(** The collaborators of the query path. *)
Record QueryEnv := {
  (** [VectorStoreService.similaritySearch(query, k)]: throws when the store
      is not initialised or the search fails *)
  similaritySearch : string → nat → Outcome (list Document.t);
  (** [LLMService.generateAnswer(context, question)] *)
  generateAnswer : string → string → Outcome string;
}.

Record QueryResult := {
  answer : string;
  sourceDocuments : list Document.t;
}.

Record Company := { ko : string; en : string }.

Module Retrieval.
Section WithLowerCase.

(** [String.prototype.toLowerCase], kept abstract: the results hold for
    whatever case mapping the runtime implements. *)
Variable toLowerCase : string → string.

(** The gazetteer of [extractCompanyName]. *)
Definition companies : list Company := [
  {| ko := "쿠팡"; en := "coupang" |};
  {| ko := "토스"; en := "toss" |};
  {| ko := "케이뱅크"; en := "kbank" |};
  {| ko := "네이버"; en := "naver" |};
  {| ko := "카카오"; en := "kakao" |};
  {| ko := "삼성"; en := "samsung" |};
  {| ko := "현대"; en := "hyundai" |};
  {| ko := "lg"; en := "lg" |};
  {| ko := "skt"; en := "skt" |};
  {| ko := "배달의민족"; en := "woowa" |};
  {| ko := "우아한형제들"; en := "woowa" |};
  {| ko := "직방"; en := "zigbang" |}
].

(** The condition of the [for] loop of [extractCompanyName]. *)
Definition mentions (question : string) (company : Company) : bool :=
  Js.includes question (ko company) ||
  Js.includes (toLowerCase question) (en company).

(** [RagService.extractCompanyName]: the first gazetteer entry the question
    mentions, as its [ko] field; [None] is [null]. *)
Definition extractCompanyName (question : string) : option string :=
  ko <$> List.find (mentions question) companies.

(** The predicate given to [candidateDocs.filter] in [query]. *)
Definition matchesCompany (companyName : string) (doc : Document.t) : bool :=
  let metadata := Document.metadata doc in
  let fileName := Js.orEmpty (toLowerCase <$> metadata !! "fileName") in
  let docCompanyName :=
    Js.orEmpty (toLowerCase <$> metadata !! "company_name") in
  let companyNameEn :=
    Js.orEmpty (toLowerCase <$> metadata !! "company_name_en") in
  let searchTerm := toLowerCase companyName in
  Js.includes fileName searchTerm ||
  Js.includes docCompanyName searchTerm ||
  Js.includes companyNameEn searchTerm.

(** Steps 2 and 3 of [query]: the value of [relevantDocs]. *)
Definition relevantDocs (question : string) (candidateDocs : list Document.t)
  : list Document.t :=
  match extractCompanyName question with
  | Some companyName =>
      if Js.truthy companyName then
        let filteredDocs :=
          List.filter (matchesCompany companyName) candidateDocs in
        if (0 <? length filteredDocs)%nat
        then Js.slice0 4 filteredDocs
        else Js.slice0 4 candidateDocs
      else Js.slice0 4 candidateDocs
  | None => Js.slice0 4 candidateDocs
  end.

(** [RagService.query] *)
Definition query (Q : QueryEnv) (question : string) : Outcome QueryResult :=
  await candidateDocs := similaritySearch Q question 10 in
  let docs := relevantDocs question candidateDocs in
  let context := Js.join Js.blankLine (Document.pageContent <$> docs) in
  await answer := generateAnswer Q context question in
  Returned {| answer := answer; sourceDocuments := docs |}.

End WithLowerCase.
End Retrieval.

(** ** DocumentLoaderService: JSON documents as text *)

Module JsonText.

(** A parsed JSON value.  A number carries the text [`${n}`] gives it; an
    object carries its entries in the order of [Object.entries]. *)
#[warnings="-register-all"]
Inductive Json :=
  | JNull
  | JBool (b : bool)
  | JNumber (text : string)
  | JString (s : string)
  | JArray (items : list Json)
  | JObject (entries : list (string * Json)).

(** [typeof item === 'object'] *)
Definition isObject (item : Json) : bool :=
  match item with
  | JNull | JArray _ | JObject _ => true
  | JBool _ | JNumber _ | JString _ => false
  end.

(** [`${data}`] for a string, number or boolean *)
Definition scalarText (data : Json) : string :=
  match data with
  | JBool true => "true"
  | JBool false => "false"
  | JNumber text => text
  | JString s => s
  | _ => EmptyString
  end.

(** [`${currentPrefix}[${index}]`] *)
Definition indexed (currentPrefix : string) (index : nat) : string :=
  currentPrefix +:+ "[" +:+ pretty index +:+ "]".

(** [currentPrefix ? `${currentPrefix}.${key}` : key] *)
Definition keyed (currentPrefix key : string) : string :=
  if Js.truthy currentPrefix then currentPrefix +:+ "." +:+ key else key.

(** [traverse] of [jsonToReadableText]: the lines it pushes, in order. *)
Fixpoint traverse (data : Json) (currentPrefix : string) : list string :=
  match data with
  | JBool _ | JNumber _ | JString _ =>
      [currentPrefix +:+ ": " +:+ scalarText data]
  | JArray items =>
      (fix forEachItem (items : list Json) (index : nat) : list string :=
         match items with
         | [] => []
         | item :: rest =>
             (if isObject item
              then traverse item (indexed currentPrefix index)
              else [indexed currentPrefix index +:+ ": " +:+ scalarText item])
             ++ forEachItem rest (Datatypes.S index)
         end) items 0
  | JObject entries =>
      (fix forEachEntry (entries : list (string * Json)) : list string :=
         match entries with
         | [] => []
         | (key, value) :: rest =>
             traverse value (keyed currentPrefix key) ++ forEachEntry rest
         end) entries
  | JNull => []
  end.




End JsonText.

(** ** VectorStoreService *)

Module VectorStoreService.
Section WithStore.

(** Instances of [QdrantVectorStore]. *)
Variable Q : Type.

(** The class [QdrantVectorStore], which the service only calls into. *)
Record Qdrant := {
  (** [new QdrantVectorStore(embeddings, config)] *)
  newStore : Outcome Q;
  (** [QdrantVectorStore.fromDocuments(documents, embeddings, config)] *)
  fromDocuments : list Document.t → Outcome Q;
  (** [store.addDocuments(documents)] *)
  storeAdd : Q → list Document.t → Outcome unit;
  (** [store.similaritySearch(query, k)] *)
  storeSearch : Q → string → nat → Outcome (list Document.t);
}.

Variable D : Qdrant.

(** The state is the field [vectorStore : QdrantVectorStore | null]. *)
Definition notInitialized : string :=
  "벡터 스토어가 초기화되지 않았습니다. 먼저 문서를 추가해주세요.".

(** [initializeVectorStore] *)
Definition initializeVectorStore : M (option Q) unit :=
  tryCatch
    (call store := lift (newStore D) in
     modify (λ _, Some store))
    (λ _, ret tt).

(** [onModuleInit] *)
Definition onModuleInit : M (option Q) unit := initializeVectorStore.

(** [addDocuments] *)
Definition addDocuments (documents : list Document.t) : M (option Q) unit :=
  call vectorStore := gets id in
  match vectorStore with
  | None =>
      call store := lift (fromDocuments D documents) in
      modify (λ _, Some store)
  | Some store => lift (storeAdd D store documents)
  end.

(** [similaritySearch] *)
Definition similaritySearch (query : string) (k : nat)
  : M (option Q) (list Document.t) :=
  call vectorStore := gets id in
  match vectorStore with
  | None => throw notInitialized
  | Some store => lift (storeSearch D store query k)
  end.

(** [getVectorStore] *)
Definition getVectorStore : M (option Q) (option Q) := gets id.

End WithStore.
End VectorStoreService.

(** The query path as it sees a vector store service whose field is
    [store]: [RagService.query] calls [VectorStoreService.similaritySearch]
    and [LLMService.generateAnswer]. *)
Definition queryEnvOf {Q : Type} (D : VectorStoreService.Qdrant Q)
  (store : option Q) (generateAnswer : string → string → Outcome string)
  : QueryEnv :=
  Build_QueryEnv
    (λ query k, (VectorStoreService.similaritySearch Q D query k store).1)
    generateAnswer.

(** ** RagController *)

Module RagController.

(** The two shapes of the JSON an endpoint answers with. *)
Inductive Reply (A : Type) :=
  | Success (payload : A)
  | Failure (error : string).
Arguments Success {A} payload.
Arguments Failure {A} error.

(** [{ dirPath, recursive? }] *)
Record IndexBody := {
  dirPath : string;
  recursive : option bool;
}.


(** [{ content, metadata }] of a source in the answer of [query] *)
Record Source := {
  content : string;
  metadata : gmap string string;
}.

Section WithEnv.
Variable E : Env.

(** [body.recursive !== undefined ? body.recursive : true] *)
Definition recursiveOf (body : IndexBody) : bool :=
  match recursive body with
  | Some flag => flag
  | None => true
  end.

(** [incrementalIndex]: the reply carries the result and the message. *)
Definition incrementalIndex (body : IndexBody)
  : M State (Reply (Rag.Result * string)) :=
  tryCatch
    (call result :=
       Rag.incrementalIndexDirectory E (dirPath body) (recursiveOf body) in
     ret (Success
            (result,
             "증분 인덱싱 완료: 추가 " +:+ pretty (Rag.added result) +:+
             "개, 업데이트 " +:+ pretty (Rag.updated result) +:+
             "개, 스킵 " +:+ pretty (Rag.skipped result) +:+ "개")))
    (λ message, ret (Failure message)).

(** [indexDirectory]: the reply carries [filesProcessed] and the message. *)
Definition indexDirectory (body : IndexBody)
  : M State (Reply (nat * string)) :=
  tryCatch
    (call filesProcessed :=
       Rag.loadDocumentsFromDirectory E (dirPath body) (recursiveOf body) in
     ret (Success
            (filesProcessed,
             pretty filesProcessed +:+ "개 파일이 성공적으로 인덱싱되었습니다.")))
    (λ message, ret (Failure message)).


(** [getStats] *)
Definition getStats (greater : string → string → bool)
  : M State (Reply IndexingHistory.Stats) :=
  tryCatch
    (call stats := Rag.getIndexingStats greater in
     ret (Success stats))
    (λ message, ret (Failure message)).

(** [resetHistory] *)
Definition resetHistory : M State (Reply string) :=
  tryCatch
    (exec Rag.clearIndexingHistory E in
     ret (Success "인덱싱 히스토리가 초기화되었습니다."))
    (λ message, ret (Failure message)).

End WithEnv.

Section Query.
(** [String.prototype.toLowerCase] and [s.substring(0, 200)] *)
Variable toLowerCase : string → string.
Variable first200 : string → string.

(** [query]: the reply carries the answer and the sources. *)
Definition query (Q : QueryEnv) (question : string)
  : Reply (string * list Source) :=
  match Retrieval.query toLowerCase Q question with
  | Returned result =>
      Success
        (answer result,
         (λ doc, {| content := first200 (Document.pageContent doc) +:+ "...";
                    metadata := Document.metadata doc |})
           <$> sourceDocuments result)
  | Thrown message => Failure message
  end.

End Query.

End RagController.

(** ** Sample inputs *)

Module Sample.

Definition chunk (text : string) (fields : list (string * string))
  : Document.t :=
  {| Document.pageContent := text; Document.metadata := list_to_map fields |}.

Definition coupangChunk : Document.t :=
  chunk "쿠팡 채용 공고" [("fileName", "coupang.json");
                          ("company_name", "쿠팡");
                          ("company_name_en", "Coupang")].

Definition tossChunk : Document.t :=
  chunk "토스 채용 공고" [("fileName", "toss.json");
                          ("company_name", "토스");
                          ("company_name_en", "Toss")].

(** tagged with the English alias only *)
Definition lgChunk : Document.t :=
  chunk "LG hiring notice" [("company_name_en", "LG")].

Definition coupangAliasChunk : Document.t :=
  chunk "Coupang hiring notice" [("company_name_en", "coupang")].

Definition candidates : list Document.t :=
  [tossChunk; coupangChunk; lgChunk; tossChunk; coupangAliasChunk].

Definition tossOnly : list Document.t :=
  [tossChunk; tossChunk; tossChunk; tossChunk; tossChunk].

(** a corpus directory with a hidden file and a hidden directory *)
Definition docsTree : DocumentLoader.Node :=
  DocumentLoader.Dir
    [(".git", DocumentLoader.Dir [("config", DocumentLoader.File)]);
     (".env", DocumentLoader.File);
     ("a.txt", DocumentLoader.File);
     ("sub", DocumentLoader.Dir [("b.txt", DocumentLoader.File);
                                 (".hidden.txt", DocumentLoader.File)])].

Definition searchReturning (docs : list Document.t) : QueryEnv :=
  {| similaritySearch := λ _ _, Returned docs;
     generateAnswer := λ context _, Returned context |}.

(** A corpus of two text files on disk; [gone.txt] has been removed. *)
Definition onDisk : list (string * string) :=
  [("docs/a.txt", "9e107d9d372bb6826bd81d3542a419d6");
   ("docs/b.txt", "e4d909c290d0fb1ca068ffaddf22cbd0")].

Definition corpus : DocumentLoader.Node :=
  DocumentLoader.Dir [("a.txt", DocumentLoader.File);
                      ("b.txt", DocumentLoader.File);
                      (".DS_Store", DocumentLoader.File)].

Definition oneChunkEach (texts : list string)
  (metadata : option (list (gmap string string))) : list Document.t :=
  imap (λ i text,
          {| Document.pageContent := text;
             Document.metadata := default ∅ (metadata ≫= (λ ms, ms !! i)) |})
       texts.

Definition textFile (path : string) : Loaded.t :=
  {| Loaded.content := "text of " +:+ path;
     Loaded.metadata :=
       list_to_map [("fileName", path); ("filePath", path);
                    ("fileType", ".txt")] |}.

Definition world : Env :=
  {| readTree := λ _, corpus;
     loadFromFile := λ path, Returned (textFile path);
     getFileInfo := λ path,
       match list_to_map (M := gmap string string) onDisk !! path with
       | Some md5 =>
           Returned {| fileHash := md5;
                       fileModifiedTime := "2024-12-14T08:30:00.000Z";
                       fileSize := 43 |}
       | None => Thrown "ENOENT"
       end;
     existsSync := λ path, bool_decide (path ∈ onDisk.*1);
     writeFileSync := λ _, Written;
     toISOString := λ _, "2024-12-14T08:35:00.000Z";
     splitTexts := λ texts metadata, Returned (oneChunkEach texts metadata);
     vectorStoreAdd := λ _ _, Returned tt |}.

(** The same world with a read-only working directory. *)
Definition readOnlyWorld : Env :=
  {| readTree := readTree world;
     loadFromFile := loadFromFile world;
     getFileInfo := getFileInfo world;
     existsSync := existsSync world;
     writeFileSync := λ _, WriteFailed "EROFS" false;
     toISOString := toISOString world;
     splitTexts := splitTexts world;
     vectorStoreAdd := vectorStoreAdd world |}.

(** A ledger from an earlier run: [a.txt] had other content then, [b.txt]
    was not there yet, and [gone.txt] still was. *)
Definition earlierLedger : gmap string FileIndexInfo :=
  list_to_map
    [("docs/a.txt",
      {| hash := "d41d8cd98f00b204e9800998ecf8427e";
         modifiedTime := "2024-12-14T08:30:00.000Z";
         chunkCount := 1; indexedAt := "2024-12-10T10:20:00.000Z" |});
     ("docs/gone.txt",
      {| hash := "f6e5d4c3b2a1f6e5d4c3b2a1f6e5d4c3";
         modifiedTime := "2024-12-10T10:00:00.000Z";
         chunkCount := 3; indexedAt := "2024-12-10T10:20:00.000Z" |})].

Definition earlierState : State :=
  {| history := earlierLedger;
     ledgerFile := Content (JsonOf earlierLedger);
     vectorStore := []; logged := []; dateCalls := 0; writeCalls := 0 |}.

Definition scanned : list Loaded.t :=
  [textFile "docs/a.txt"; textFile "docs/b.txt"].

Definition infoOfA : FileInfo :=
  {| fileHash := "9e107d9d372bb6826bd81d3542a419d6";
     fileModifiedTime := "2024-12-14T08:30:00.000Z";
     fileSize := 43 |}.

Definition recordOfA : FileIndexInfo :=
  {| hash := "d41d8cd98f00b204e9800998ecf8427e";
     modifiedTime := "2024-12-14T08:30:00.000Z";
     chunkCount := 1; indexedAt := "2024-12-10T10:20:00.000Z" |}.

Definition firstRun : Outcome Rag.Result * State :=
  Rag.incrementalIndexDirectory world "docs" true earlierState.

Definition firstResult : Rag.Result :=
  {| Rag.added := 1; Rag.updated := 1; Rag.deleted := 1; Rag.skipped := 0;
     Rag.total := 2 |}.

End Sample.

(** ** More sample inputs *)

Module Fixture.

(** [a > b] on strings of bytes: the order of ISO-8601 timestamps. *)
Fixpoint byteGreater (a b : string) : bool :=
  match a, b with
  | EmptyString, _ => false
  | String _ _, EmptyString => true
  | String x a', String y b' =>
      let nx := Ascii.nat_of_ascii x in
      let ny := Ascii.nat_of_ascii y in
      if (ny <? nx)%nat then true
      else if (nx =? ny)%nat then byteGreater a' b'
      else false
  end.

(** The ledger the sample world is left with by a run from nothing. *)
Definition afterClear : Outcome Rag.Result * State :=
  Rag.incrementalIndexDirectory Sample.world "docs" true
    (Rag.clearIndexingHistory Sample.world Sample.earlierState).2.

Definition allAdded : Rag.Result :=
  {| Rag.added := 2; Rag.updated := 0; Rag.deleted := 0; Rag.skipped := 0;
     Rag.total := 2 |}.

(** A job posting as the loader parses it. *)
Definition posting : JsonText.Json :=
  JsonText.JObject
    [("metadata", JsonText.JObject [("company_name", JsonText.JString "쿠팡");
                                    ("company_name_en",
                                     JsonText.JString "Coupang")]);
     ("title", JsonText.JString "Backend Engineer");
     ("remote", JsonText.JBool false);
     ("salary", JsonText.JNull);
     ("skills", JsonText.JArray [JsonText.JString "Java";
                                 JsonText.JObject [("name",
                                                    JsonText.JString "Kotlin");
                                                   ("years",
                                                    JsonText.JNumber "3")];
                                 JsonText.JNull]);
     ("benefits", JsonText.JArray [])].

(** A vector database that is down when the module starts and up later. *)
Definition lateStore : VectorStoreService.Qdrant unit :=
  {| VectorStoreService.newStore := Thrown "ECONNREFUSED";
     VectorStoreService.fromDocuments := λ _, Returned tt;
     VectorStoreService.storeAdd := λ _ _, Returned tt;
     VectorStoreService.storeSearch := λ _ _ k, Returned (take k Sample.candidates) |}.

(** A listing with a corpus file, a hidden file and a subdirectory. *)
Definition listing : list (string * DocumentLoader.Node) :=
  [("a.txt", DocumentLoader.File);
   (".env", DocumentLoader.File);
   ("sub", DocumentLoader.Dir [("broken", DocumentLoader.Dangling)]);
   ("b.txt", DocumentLoader.File)].

End Fixture.

(** * Properties *)

Ltac exists_branch Hrun Hpost :=
  rewrite Hrun;
  match type of Hrun with
  | _ = (Returned (Rag.tallyAfter ?b _), ?s') =>
      exists b, s'; split; [reflexivity|split; [reflexivity|exact Hpost]]
  end.

Ltac unfold_monad :=
  unfold bind, tryCatch, ret, throw, lift, gets, modify,
    logger_warn, logger_error in *.

(** ** Retrieval and re-ranking *)

Section RetrievalFacts.
Import Retrieval.
Variable toLowerCase : string → string.

Lemma filter_sublist {A} (f : A → bool) (l : list A) :
  List.filter f l `sublist_of` l.
Proof.
  induction l as [|x l IH]; simpl; [constructor|].
  destruct (f x); by constructor.
Qed.

Lemma filter_none {A} (f : A → bool) (l : list A) :
  (∀ x, x ∈ l → f x = false) → List.filter f l = [].
Proof.
  induction l as [|x l IH]; intros Hall; simpl; [done|].
  rewrite (Hall x) by apply list_elem_of_here.
  apply IH. intros y Hy. apply Hall. by apply list_elem_of_further.
Qed.

(** [relevantDocs] is always the first four of a filtering of the
    candidates: by the company predicate, or by nothing. *)
Lemma relevantDocs_shape question candidateDocs :
  ∃ keep : Document.t → bool,
    relevantDocs toLowerCase question candidateDocs
    = take 4 (List.filter keep candidateDocs).
Proof.
  unfold relevantDocs, Js.slice0.
  destruct (extractCompanyName toLowerCase question) as [companyName|];
    [destruct (Js.truthy companyName);
     [destruct (0 <? _)%nat|]|];
    first (by eexists);
    exists (λ _, true); by rewrite filter_true.
Qed.

Lemma extractCompanyName_truthy question companyName :
  extractCompanyName toLowerCase question = Some companyName →
  Js.truthy companyName = true.
Proof.
  unfold extractCompanyName. intros H.
  destruct (List.find _ _) as [c|] eqn:Hfind; [|done].
  injection H as <-. apply find_some in Hfind as [Hin _].
  unfold companies in Hin. simpl in Hin.
  repeat (destruct Hin as [<-|Hin]; [done|]). done.
Qed.

Lemma find_first_match {A} (f : A → bool) (l : list A) (x : A) :
  List.find f l = Some x →
  ∃ before after,
    l = before ++ x :: after ∧ (∀ y, y ∈ before → f y = false) ∧ f x = true.
Proof.
  induction l as [|a l IH]; simpl; [done|].
  destruct (f a) eqn:Ha.
  - intros [= ->]. exists [], l. split_and!; [done| |done].
    intros y Hy. by apply not_elem_of_nil in Hy.
  - intros Hfind. destruct (IH Hfind) as (before & after & -> & Hb & Hx).
    exists (a :: before), after. split_and!; [done| |done].
    intros y [->|Hy]%elem_of_cons; auto.
Qed.

Lemma find_is_Some {A} (f : A → bool) (l : list A) (x : A) :
  x ∈ l → f x = true → is_Some (List.find f l).
Proof.
  intros Hin Hx. destruct (List.find f l) eqn:Hfind; [by eexists|].
  apply list_elem_of_In in Hin.
  pose proof (find_none f l Hfind x Hin). congruence.
Qed.

(** The filter on a candidate that carries nothing but [company_name_en]. *)
Lemma matchesCompany_only_en companyName alias doc :
  Document.metadata doc = {["company_name_en" := alias]} →
  matchesCompany toLowerCase companyName doc
  = Js.includes EmptyString (toLowerCase companyName) ||
    Js.includes (toLowerCase alias) (toLowerCase companyName).
Proof.
  intros Hmeta. unfold matchesCompany. rewrite Hmeta.
  rewrite lookup_singleton_eq, !lookup_singleton_ne by done. simpl.
  by rewrite orb_diag.
Qed.

(** C6. Re-ranking preserves order: the sources [query] returns are a
    subsequence, in the same order, of the candidates of the similarity
    search; they are the first four candidates that survive a filter, and
    the documents themselves are returned untouched. *)
Theorem query_order_preserved Q question candidateDocs result :
  similaritySearch Q question 10 = Returned candidateDocs →
  query toLowerCase Q question = Returned result →
  sourceDocuments result `sublist_of` candidateDocs ∧
  ∃ keep : Document.t → bool,
    sourceDocuments result = take 4 (List.filter keep candidateDocs).
Proof.
  intros Hsearch. unfold query. rewrite Hsearch. simpl.
  destruct (generateAnswer Q _ question) as [a|e]; simpl; [|done].
  intros [= <-]. simpl.
  destruct (relevantDocs_shape question candidateDocs) as [keep Hkeep].
  split; [|by exists keep].
  rewrite Hkeep. etrans; [apply sublist_take|apply filter_sublist].
Qed.

(** C2. Re-ranking fallback: when a company is extracted from the question
    but no candidate matches it, [query] takes the first four candidates
    of the unfiltered list as its sources and as the context of the answer;
    with at least four candidates that is exactly four sources. *)
Theorem query_fallback_unfiltered Q question companyName candidateDocs :
  extractCompanyName toLowerCase question = Some companyName →
  similaritySearch Q question 10 = Returned candidateDocs →
  4 ≤ length candidateDocs →
  (∀ doc, doc ∈ candidateDocs →
          matchesCompany toLowerCase companyName doc = false) →
  relevantDocs toLowerCase question candidateDocs = take 4 candidateDocs ∧
  length (take 4 candidateDocs) = 4 ∧
  query toLowerCase Q question
  = await answer :=
      generateAnswer Q
        (Js.join Js.blankLine (Document.pageContent <$> take 4 candidateDocs))
        question in
    Returned {| answer := answer;
                sourceDocuments := take 4 candidateDocs |}.
Proof.
  intros Hname Hsearch Hlen Hnone.
  assert (relevantDocs toLowerCase question candidateDocs
          = take 4 candidateDocs) as Hdocs.
  { unfold relevantDocs, Js.slice0. rewrite Hname.
    rewrite (extractCompanyName_truthy _ _ Hname).
    by rewrite (filter_none _ _ Hnone). }
  split_and!; [done|rewrite length_take; lia|].
  unfold query. rewrite Hsearch. simpl. by rewrite Hdocs.
Qed.

(** C9 (as amended). A question that mentions a gazetteer entry only by
    its alias makes [extractCompanyName] return the [ko] form of the first
    entry it mentions, and [query] filters the candidates on that form.  A
    candidate that carries nothing but the alias in [company_name_en]
    passes the filter exactly when the entry's two forms coincide (the
    entries lg and skt). *)
Theorem alias_question_filters_on_ko question entry :
  (∀ c, c ∈ companies → toLowerCase (ko c) = ko c ∧ toLowerCase (en c) = en c) →
  entry ∈ companies →
  Js.includes (toLowerCase question) (en entry) = true →
  Js.includes question (ko entry) = false →
  ∃ before first after,
    companies = before ++ first :: after ∧
    (∀ c, c ∈ before → mentions toLowerCase question c = false) ∧
    mentions toLowerCase question first = true ∧
    extractCompanyName toLowerCase question = Some (ko first) ∧
    (∀ candidateDocs,
       let filteredDocs :=
         List.filter (matchesCompany toLowerCase (ko first)) candidateDocs in
       relevantDocs toLowerCase question candidateDocs
       = if (0 <? length filteredDocs)%nat
         then take 4 filteredDocs else take 4 candidateDocs) ∧
    (∀ doc,
       Document.metadata doc = {["company_name_en" := en first]} →
       matchesCompany toLowerCase (ko first) doc
       = bool_decide (ko first = en first)).
Proof.
  intros Hlower Hentry Hen Hko.
  assert (mentions toLowerCase question entry = true) as Hmentions.
  { unfold mentions. by rewrite Hen, orb_true_r. }
  destruct (find_is_Some _ _ _ Hentry Hmentions) as [first Hfind].
  destruct (find_first_match _ _ _ Hfind) as (before & after & Hsplit & Hb & Hf).
  assert (extractCompanyName toLowerCase question = Some (ko first)) as Hname.
  { unfold extractCompanyName. by rewrite Hfind. }
  exists before, first, after. split_and!; try done.
  - intros candidateDocs. simpl. unfold relevantDocs, Js.slice0.
    rewrite Hname. by rewrite (extractCompanyName_truthy _ _ Hname).
  - intros doc Hmeta.
    rewrite (matchesCompany_only_en _ _ _ Hmeta).
    assert (first ∈ companies) as Hin.
    { rewrite Hsplit. apply elem_of_app. right. apply list_elem_of_here. }
    destruct (Hlower _ Hin) as [-> ->].
    revert Hin. clear. unfold companies. intros Hin.
    repeat (apply elem_of_cons in Hin as [->|Hin]; [by vm_compute|]).
    by apply not_elem_of_nil in Hin.
Qed.

End RetrievalFacts.

Lemma query_order_preserved_witness :
  ∃ result,
    Retrieval.query Js.toLowerCaseAscii
      (Sample.searchReturning Sample.candidates) "쿠팡 복지" = Returned result ∧
    sourceDocuments result `sublist_of` Sample.candidates ∧
    ∃ keep : Document.t → bool,
      sourceDocuments result = take 4 (List.filter keep Sample.candidates).
Proof.
  eexists. split; [reflexivity|].
  apply (query_order_preserved Js.toLowerCaseAscii
           (Sample.searchReturning Sample.candidates) "쿠팡 복지");
    reflexivity.
Defined.

Lemma query_fallback_unfiltered_witness :
  Retrieval.relevantDocs Js.toLowerCaseAscii "쿠팡 복지" Sample.tossOnly
  = take 4 Sample.tossOnly ∧
  length (take 4 Sample.tossOnly) = 4 ∧
  Retrieval.query Js.toLowerCaseAscii
    (Sample.searchReturning Sample.tossOnly) "쿠팡 복지"
  = await answer :=
      generateAnswer (Sample.searchReturning Sample.tossOnly)
        (Js.join Js.blankLine (Document.pageContent <$> take 4 Sample.tossOnly))
        "쿠팡 복지" in
    Returned {| answer := answer; sourceDocuments := take 4 Sample.tossOnly |}.
Proof.
  apply (query_fallback_unfiltered Js.toLowerCaseAscii
           (Sample.searchReturning Sample.tossOnly) "쿠팡 복지" "쿠팡").
  - reflexivity.
  - reflexivity.
  - simpl. lia.
  - intros doc Hdoc. unfold Sample.tossOnly in Hdoc.
    repeat (apply elem_of_cons in Hdoc as [->|Hdoc]; [by vm_compute|]).
    by apply not_elem_of_nil in Hdoc.
Defined.

Lemma lowerAscii_fixes_gazetteer :
  ∀ c, c ∈ Retrieval.companies →
       Js.toLowerCaseAscii (ko c) = ko c ∧ Js.toLowerCaseAscii (en c) = en c.
Proof.
  intros c Hc. unfold Retrieval.companies in Hc.
  repeat (apply elem_of_cons in Hc as [->|Hc]; [by vm_compute|]).
  by apply not_elem_of_nil in Hc.
Defined.

(** C9, the claim as stated fails: the question mentions the entry lg only
    through its alias (the case-sensitive test for the [ko] form fails), yet
    the candidate tagged with nothing but [company_name_en] passes the
    filter and is the one source returned. *)
Lemma alias_only_candidate_passes :
  Js.includes (Js.toLowerCaseAscii "LG 채용") "lg" = true ∧
  Js.includes "LG 채용" "lg" = false ∧
  Retrieval.extractCompanyName Js.toLowerCaseAscii "LG 채용" = Some "lg" ∧
  Document.metadata Sample.lgChunk = {["company_name_en" := "LG"]} ∧
  Retrieval.matchesCompany Js.toLowerCaseAscii "lg" Sample.lgChunk = true ∧
  Retrieval.relevantDocs Js.toLowerCaseAscii "LG 채용" Sample.candidates
  = [Sample.lgChunk].
Proof. by vm_compute. Qed.

Lemma alias_question_filters_on_ko_witness :
  Retrieval.extractCompanyName Js.toLowerCaseAscii "Coupang benefits"
  = Some "쿠팡" ∧
  Retrieval.matchesCompany Js.toLowerCaseAscii "쿠팡" Sample.coupangAliasChunk
  = false.
Proof.
  destruct (alias_question_filters_on_ko Js.toLowerCaseAscii
              "Coupang benefits" {| ko := "쿠팡"; en := "coupang" |}
              lowerAscii_fixes_gazetteer)
    as (before & first & after & Hsplit & _ & _ & Hname & _ & Hdoc).
  - apply list_elem_of_here.
  - reflexivity.
  - reflexivity.
  - assert (ko first = "쿠팡") as Hko.
    { assert (Retrieval.extractCompanyName Js.toLowerCaseAscii
                "Coupang benefits" = Some "쿠팡") as H by reflexivity.
      congruence. }
    split; [by rewrite Hname, Hko|].
    reflexivity.
Defined.

(** ** The monad *)

Section MonadFacts.
Context {S A B : Type}.

Lemma bind_lift (o : Outcome A) (k : A → M S B) (s : S) :
  bind (lift o) k s
  = match o with Returned a => k a s | Thrown e => (Thrown e, s) end.
Proof. by destruct o. Qed.

Lemma bind_gets (f : S → A) (k : A → M S B) (s : S) :
  bind (gets f) k s = k (f s) s.
Proof. done. Qed.

Lemma bind_ret (a : A) (k : A → M S B) (s : S) : bind (ret a) k s = k a s.
Proof. done. Qed.

End MonadFacts.

(** ** The ledger *)

Section LedgerFacts.
Import IndexingHistory.
Variable E : Env.

(** [saveHistory] written out: whatever the write does, it returns. *)
Lemma saveHistory_run s :
  saveHistory E s
  = match writeFileSync E (writeCalls s) with
    | Written =>
        (Returned tt,
         setLedgerFile (Content (JsonOf (history s))) (tickWrite s))
    | WriteFailed e truncated =>
        (Returned tt,
         addLog Error ("히스토리 저장 실패: " +:+ e)
           (if truncated then setLedgerFile (Content Garbage) (tickWrite s)
            else tickWrite s))
    end.
Proof.
  unfold saveHistory, writeHistoryFile, JSON_stringify. unfold_monad. simpl.
  by destruct (writeFileSync E (writeCalls s)) as [|e []].
Qed.

Lemma saveHistory_keeps s :
  ∃ s', saveHistory E s = (Returned tt, s') ∧
        history s' = history s ∧ vectorStore s' = vectorStore s.
Proof.
  rewrite saveHistory_run.
  destruct (writeFileSync E (writeCalls s)) as [|e []]; by eexists.
Qed.

Lemma recordIndexing_run filePath h mtime count s :
  ∃ s', recordIndexing E filePath h mtime count s = (Returned tt, s') ∧
        history s'
        = <[filePath := {| hash := h; modifiedTime := mtime;
                           chunkCount := count;
                           indexedAt := toISOString E (dateCalls s) |}]>
            (history s) ∧
        vectorStore s' = vectorStore s.
Proof.
  unfold recordIndexing, nowISOString. unfold_monad. simpl.
  match goal with |- context [saveHistory E ?t] =>
    destruct (saveHistory_keeps t) as (s' & -> & Hh & Hv) end.
  by exists s'.
Qed.

Lemma removeRecord_run filePath s :
  ∃ s', removeRecord E filePath s = (Returned tt, s') ∧
        history s' = delete filePath (history s) ∧
        vectorStore s' = vectorStore s.
Proof.
  unfold removeRecord. unfold_monad. simpl.
  match goal with |- context [saveHistory E ?t] =>
    destruct (saveHistory_keeps t) as (s' & -> & Hh & Hv) end.
  by exists s'.
Qed.

Lemma hasChanged_true s filePath currentHash :
  (hasChanged filePath currentHash s).1 = Returned true ↔
  history s !! filePath = None ∨
  ∃ record, history s !! filePath = Some record ∧ hash record ≠ currentHash.
Proof.
  unfold hasChanged, gets. simpl.
  destruct (history s !! filePath) as [record|]; [|by split; [left|]].
  destruct (String.eqb_spec (hash record) currentHash) as [Heq|Hne]; simpl.
  - split; [done|]. intros [[=]|(r & [= <-] & Hr)]. by destruct Hr.
  - split; [|done]. intros _. right. by exists record.
Qed.

(** C10. A failed write of the ledger file never reaches the caller:
    [recordIndexing], [removeRecord] and [clearHistory] return normally and
    have updated the map in memory whatever the write did.  When the write
    succeeds the file holds the map; when it fails the failure is only
    logged, and the file is left as it was (or truncated), behind the map. *)
Theorem persistence_failure_is_silent s :
  let persisted (expected : gmap string FileIndexInfo) (s' : State) :=
    history s' = expected ∧
    match writeFileSync E (writeCalls s) with
    | Written =>
        ledgerFile s' = Content (JsonOf expected) ∧ logged s' = logged s
    | WriteFailed e truncated =>
        ledgerFile s'
        = (if truncated then Content Garbage else ledgerFile s) ∧
        logged s' = (Error, "히스토리 저장 실패: " +:+ e) :: logged s
    end in
  (∀ filePath h mtime count, ∃ s',
     recordIndexing E filePath h mtime count s = (Returned tt, s') ∧
     persisted
       (<[filePath := {| hash := h; modifiedTime := mtime; chunkCount := count;
                         indexedAt := toISOString E (dateCalls s) |}]>
          (history s)) s') ∧
  (∀ filePath, ∃ s',
     removeRecord E filePath s = (Returned tt, s') ∧
     persisted (delete filePath (history s)) s') ∧
  (∃ s', clearHistory E s = (Returned tt, s') ∧ persisted ∅ s').
Proof.
  simpl. split_and!; [intros filePath h mtime count|intros filePath|];
    unfold recordIndexing, removeRecord, clearHistory, nowISOString;
    unfold_monad; simpl; rewrite saveHistory_run; simpl;
    destruct (writeFileSync E (writeCalls s)) as [|e []];
    by eexists.
Qed.

(** [construct] written out, case by case on the ledger file. *)
Lemma construct_run s :
  construct s
  = (Returned tt,
     match ledgerFile s with
     | NoFile => setHistory (λ _, ∅) s
     | Unreadable =>
         setHistory (λ _, ∅) (addLog Warn ("히스토리 로드 실패: " +:+ "EACCES") s)
     | Content Garbage =>
         setHistory (λ _, ∅)
           (addLog Warn ("히스토리 로드 실패: " +:+ "Unexpected token in JSON") s)
     | Content (JsonOf records) => setHistory (λ _, records) s
     end).
Proof.
  unfold construct, loadHistory, historyFileExists, readHistoryFile.
  unfold_monad.
  by destruct (ledgerFile s) as [| |[|records]] eqn:Hfile; simpl;
    rewrite ?Hfile.
Qed.

(** C8 (as amended). Constructing the service never throws, whatever the
    ledger file is.  An absent file gives the empty ledger and logs nothing;
    an unreadable or unparsable file gives the empty ledger and logs one
    warning; a well-formed file gives its records.  With the empty ledger no
    path counts as indexed. *)
Theorem construct_never_throws s :
  ∃ s', construct s = (Returned tt, s') ∧
        ledgerFile s' = ledgerFile s ∧
        match ledgerFile s with
        | NoFile =>
            history s' = ∅ ∧ logged s' = logged s
        | Unreadable | Content Garbage =>
            history s' = ∅ ∧
            ∃ message, logged s' = (Warn, message) :: logged s
        | Content (JsonOf records) =>
            history s' = records ∧ logged s' = logged s
        end ∧
        (history s' = ∅ → ∀ filePath, (isIndexed filePath s').1 = Returned false).
Proof.
  rewrite construct_run. eexists. split; [reflexivity|].
  split_and!.
  - by destruct (ledgerFile s) as [| |[|records]] eqn:Hfile.
  - destruct (ledgerFile s) as [| |[|records]]; simpl; eauto.
  - intros Hempty filePath. unfold isIndexed, gets. cbn [fst].
    rewrite Hempty, lookup_empty, bool_decide_eq_false_2; [done|].
    by intros [? ?].
Qed.

End LedgerFacts.

(** C8, the claim as stated fails: with no ledger file the service is
    constructed with the empty ledger and not a single line is logged. *)
Lemma absent_ledger_logs_nothing :
  let s := {| history := ∅; ledgerFile := NoFile; vectorStore := [];
              logged := []; dateCalls := 0; writeCalls := 0 |} in
  IndexingHistory.construct s = (Returned tt, s) ∧ logged s = [].
Proof. by vm_compute. Qed.

(** ** Reconciliation *)

Section ReconciliationFacts.
Import IndexingHistory Rag.
Variable E : Env.

Lemma forEach_removeRecord paths s :
  ∃ s', forEach (removeRecord E) paths s = (Returned tt, s') ∧
        (∀ p, history s' !! p
              = if bool_decide (p ∈ paths) then None else history s !! p) ∧
        vectorStore s' = vectorStore s.
Proof.
  revert s. induction paths as [|q paths IH]; intros s; cbn [forEach].
  - exists s. split_and!; [done| |done]. intros p.
    rewrite bool_decide_eq_false_2; [done|apply not_elem_of_nil].
  - unfold bind at 1.
    destruct (removeRecord_run E q s) as (s1 & -> & Hh1 & Hv1).
    destruct (IH s1) as (s' & -> & Hh & Hv).
    exists s'. split_and!; [done| |congruence].
    intros p. rewrite Hh, Hh1.
    destruct (decide (p = q)) as [->|Hne].
    + rewrite lookup_delete_eq.
      rewrite (bool_decide_eq_true_2 (q ∈ q :: paths)) by apply list_elem_of_here.
      by destruct (bool_decide _).
    + rewrite lookup_delete_ne by done.
      rewrite (bool_decide_ext (p ∈ q :: paths) (p ∈ paths)); [done|].
      rewrite elem_of_cons. split; [by intros [?|?]|by right].
Qed.

Lemma elem_of_missingPaths s p :
  p ∈ missingPaths E s ↔ is_Some (history s !! p) ∧ existsSync E p = false.
Proof.
  unfold missingPaths. rewrite list_elem_of_In, filter_In, <-list_elem_of_In.
  rewrite negb_true_iff.
  assert (p ∈ (map_to_list (history s)).*1 ↔ is_Some (history s !! p)) as ->;
    [|done].
  rewrite list_elem_of_fmap. split.
  - intros ([q v] & -> & Hin). apply elem_of_map_to_list in Hin. by exists v.
  - intros [v Hv]. exists (p, v). split; [done|]. by apply elem_of_map_to_list.
Qed.

Lemma NoDup_missingPaths s : NoDup (missingPaths E s).
Proof.
  unfold missingPaths. apply NoDup_ListNoDup, List.NoDup_filter, NoDup_ListNoDup.
  apply NoDup_fst_map_to_list.
Qed.

(** Step 3 written out: the count is the number of recorded paths that are
    not on disk, and exactly those records are gone afterwards. *)
Lemma removeDeleted_run s :
  ∃ s', removeDeleted E s = (Returned (length (missingPaths E s)), s') ∧
        (∀ p, history s' !! p
              = if existsSync E p then history s !! p else None) ∧
        vectorStore s' = vectorStore s.
Proof.
  assert (findDeletedFiles E s = (Returned (missingPaths E s), s)) as Hfind
    by done.
  assert (∀ p, (if bool_decide (p ∈ missingPaths E s) then None
                else history s !! p)
               = if existsSync E p then history s !! p else None) as Hlookup.
  { intros p. case_bool_decide as Hin.
    - apply elem_of_missingPaths in Hin as [_ ->]. done.
    - destruct (existsSync E p) eqn:Hex; [done|].
      destruct (history s !! p) eqn:Hp; [|done].
      destruct Hin. apply elem_of_missingPaths. by rewrite Hp. }
  unfold removeDeleted. unfold bind at 1. rewrite Hfind.
  destruct (missingPaths E s) as [|q paths] eqn:Hmissing.
  - exists s. split_and!; [done| |done].
    intros p. rewrite <-Hlookup.
    rewrite bool_decide_eq_false_2; [done|apply not_elem_of_nil].
  - destruct (forEach_removeRecord (q :: paths) s) as (s' & Hrun & Hh & Hv).
    unfold_monad. cbn [length Nat.ltb Nat.leb]. rewrite Hrun.
    eexists. split_and!; [reflexivity| |done].
    intros p. cbn [history addLog]. by rewrite Hh, Hlookup.
Qed.

(** The indexing sequence shared by the two indexing branches: it throws
    with the ledger untouched, or it has upserted the chunks and recorded
    the file. *)
Lemma reindex_run doc p info c' s :
  let m : M State Tally.t :=
    exec addDocuments E [Loaded.content doc] [Loaded.metadata doc] in
    call chunkCount := getChunkCount E (Loaded.content doc) in
    exec recordIndexing E p (fileHash info) (fileModifiedTime info)
           chunkCount in
    ret c' in
  (∃ e s', m s = (Thrown e, s') ∧ history s' = history s ∧
           ¬ indexable E s doc) ∨
  (∃ chunks counted s',
     m s = (Returned c', s') ∧
     splitTexts E [Loaded.content doc] (Some [Loaded.metadata doc])
     = Returned chunks ∧
     vectorStoreAdd E (vectorStore s) chunks = Returned tt ∧
     splitTexts E [Loaded.content doc] None = Returned counted ∧
     history s'
     = <[p := {| hash := fileHash info;
                 modifiedTime := fileModifiedTime info;
                 chunkCount := length counted;
                 indexedAt := toISOString E (dateCalls s) |}]> (history s) ∧
     vectorStore s' = vectorStore s ++ chunks).
Proof.
  intros m. subst m.
  unfold addDocuments, getChunkCount, vectorStore_addDocuments.
  unfold_monad.
  destruct (splitTexts E [Loaded.content doc] (Some [Loaded.metadata doc]))
    as [chunks|e] eqn:Hsplit;
    [|left; eexists _, _; split_and!; [done..|];
      intros (? & ? & ? & ? & ?); congruence].
  destruct (vectorStoreAdd E (vectorStore s) chunks) as [[]|e] eqn:Hadd;
    [|left; eexists _, _; split_and!; [done..|];
      intros (? & ? & ? & ? & ?); congruence].
  destruct (splitTexts E [Loaded.content doc] None) as [counted|e] eqn:Hcount;
    [|left; eexists _, _; split_and!; [done..|];
      intros (? & ? & ? & ? & ?); congruence].
  match goal with |- context [recordIndexing E ?a ?b ?c ?d ?t] =>
    destruct (recordIndexing_run E a b c d t) as (s' & -> & Hh & Hv) end.
  right. exists chunks, counted, s'. by split_and!.
Qed.

(** The [try] block of one iteration ends in one of four ways. *)
Lemma indexFile_branches doc c s :
  ∃ b s',
    (if b is Failed then ∃ e, indexFile E doc c s = (Thrown e, s')
     else indexFile E doc c s = (Returned (tallyAfter b c), s')) ∧
    match b with
    | Failed =>
        history s' = history s ∧
        ¬ upToDate E s (Loaded.metadata doc !! "filePath") ∧
        ∀ p info,
          Loaded.metadata doc !! "filePath" = Some p →
          getFileInfo E p = Returned info → ¬ indexable E s doc
    | Unchanged =>
        s' = s ∧
        ∃ p info record,
          Loaded.metadata doc !! "filePath" = Some p ∧
          getFileInfo E p = Returned info ∧
          history s !! p = Some record ∧ hash record = fileHash info
    | Changed | New =>
        ∃ p info chunks counted,
          Loaded.metadata doc !! "filePath" = Some p ∧
          getFileInfo E p = Returned info ∧
          (if b is New then history s !! p = None
           else ∃ record, history s !! p = Some record ∧
                          hash record ≠ fileHash info) ∧
          splitTexts E [Loaded.content doc] (Some [Loaded.metadata doc])
          = Returned chunks ∧
          vectorStoreAdd E (vectorStore s) chunks = Returned tt ∧
          splitTexts E [Loaded.content doc] None = Returned counted ∧
          history s'
          = <[p := {| hash := fileHash info;
                      modifiedTime := fileModifiedTime info;
                      chunkCount := length counted;
                      indexedAt := toISOString E (dateCalls s) |}]>
              (history s) ∧
          vectorStore s' = vectorStore s ++ chunks
    end.
Proof.
  unfold indexFile.
  destruct (Loaded.metadata doc !! "filePath") as [p|] eqn:Hpath.
  2:{ exists Failed, s. split; [by eexists|]. split_and!; [done| |done].
      by intros (? & ? & ? & ? & _). }
  rewrite bind_lift.
  destruct (getFileInfo E p) as [info|e] eqn:Hinfo.
  2:{ exists Failed, s. split; [by eexists|]. split_and!; [done| |].
      - intros (? & ? & ? & [= <-] & ? & _). congruence.
      - intros ? ? [= <-] ?. congruence. }
  unfold isIndexed. rewrite bind_gets.
  destruct (history s !! p) as [record|] eqn:Hrecord.
  - rewrite bool_decide_eq_true_2 by by eexists.
    unfold hasChanged. rewrite bind_gets, Hrecord.
    destruct (String.eqb_spec (hash record) (fileHash info)) as [Heq|Hne];
      cbn [negb].
    + exists Unchanged, s. split; [done|].
      split; [done|]. by exists p, info, record.
    + destruct (reindex_run doc p info (tallyAfter Changed c) s) as
        [(e & s' & Hrun & Hh & Hno)|(chunks & counted & s' & Hrun & H)].
      * exists Failed, s'. split; [by exists e|]. split_and!; [done| |done].
        intros (? & ? & ? & [= <-] & ? & ? & ?). congruence.
      * exists Changed, s'. split; [done|].
        exists p, info, chunks, counted. destruct H as (?&?&?&?&?).
        split_and!; try done. by exists record.
  - rewrite bool_decide_eq_false_2 by by intros [? ?].
    destruct (reindex_run doc p info (tallyAfter New c) s) as
      [(e & s' & Hrun & Hh & Hno)|(chunks & counted & s' & Hrun & H)].
    + exists Failed, s'. split; [by exists e|]. split_and!; [done| |done].
      intros (? & ? & ? & [= <-] & ? & ? & ?). congruence.
    + exists New, s'. split; [done|].
      exists p, info, chunks, counted. destruct H as (?&?&?&?&?).
      by split_and!.
Qed.

(** One iteration of the loop never throws: a failure of the [try] block
    costs a log line and leaves the counters and the ledger as they were. *)
Lemma processFile_branches doc c s :
  ∃ b s',
    processFile E doc c s = (Returned (tallyAfter b c), s') ∧
    returns (indexFile E doc c s).1 = (if b is Failed then false else true) ∧
    match b with
    | Failed =>
        history s' = history s ∧
        ¬ upToDate E s (Loaded.metadata doc !! "filePath") ∧
        ∀ p info,
          Loaded.metadata doc !! "filePath" = Some p →
          getFileInfo E p = Returned info → ¬ indexable E s doc
    | Unchanged =>
        s' = s ∧
        ∃ p info record,
          Loaded.metadata doc !! "filePath" = Some p ∧
          getFileInfo E p = Returned info ∧
          history s !! p = Some record ∧ hash record = fileHash info
    | Changed | New =>
        ∃ p info chunks counted,
          Loaded.metadata doc !! "filePath" = Some p ∧
          getFileInfo E p = Returned info ∧
          (if b is New then history s !! p = None
           else ∃ record, history s !! p = Some record ∧
                          hash record ≠ fileHash info) ∧
          splitTexts E [Loaded.content doc] (Some [Loaded.metadata doc])
          = Returned chunks ∧
          vectorStoreAdd E (vectorStore s) chunks = Returned tt ∧
          splitTexts E [Loaded.content doc] None = Returned counted ∧
          history s'
          = <[p := {| hash := fileHash info;
                      modifiedTime := fileModifiedTime info;
                      chunkCount := length counted;
                      indexedAt := toISOString E (dateCalls s) |}]>
              (history s) ∧
          vectorStore s' = vectorStore s ++ chunks
    end.
Proof.
  destruct (indexFile_branches doc c s) as (b & s' & Hrun & Hpost).
  unfold processFile, tryCatch.
  destruct b; cbv iota in Hrun; [exists_branch Hrun Hpost..|].
  destruct Hrun as [e Hrun]. rewrite Hrun.
  exists Failed. eexists. split; [reflexivity|split; [reflexivity|exact Hpost]].
Qed.

Lemma upToDate_insert s s' p info record op :
  getFileInfo E p = Returned info →
  hash record = fileHash info →
  history s' = <[p := record]> (history s) →
  upToDate E s op → upToDate E s' op.
Proof.
  intros Hinfo Hhash Hh (q & info' & record' & -> & Hinfo' & Hq & Hhash').
  destruct (decide (q = p)) as [->|Hne].
  - exists p, info, record. split_and!; try done.
    by rewrite Hh, lookup_insert_eq.
  - exists q, info', record'. split_and!; try done.
    by rewrite Hh, lookup_insert_ne.
Qed.

(** What one iteration does to the counters and to the ledger. *)
Lemma processFile_step doc c s :
  ∃ c' s',
    processFile E doc c s = (Returned c', s') ∧
    Tally.sum c' = Tally.sum c + (if returns (indexFile E doc c s).1 then 1 else 0) ∧
    (∀ p, is_Some (history s !! p) → is_Some (history s' !! p)) ∧
    (∀ op, upToDate E s op → upToDate E s' op) ∧
    (returns (indexFile E doc c s).1 = true →
     upToDate E s' (Loaded.metadata doc !! "filePath")).
Proof.
  destruct (processFile_branches doc c s) as (b & s' & Hrun & -> & Hpost).
  exists (tallyAfter b c), s'. split; [done|].
  destruct b.
  - destruct Hpost as (p & info & chunks & counted & Hp & Hinfo & _ & _ & _ & _
                         & Hh & _).
    split_and!.
    + unfold Tally.sum. simpl. lia.
    + intros q Hq. rewrite Hh. destruct (decide (p = q)) as [->|Hne];
        [by rewrite lookup_insert_eq|by rewrite lookup_insert_ne].
    + intros op. by refine (upToDate_insert s s' p info _ op Hinfo _ Hh).
    + intros _. eexists p, info, _. split_and!; [done|done| |];
        [by rewrite Hh, lookup_insert_eq|done].
  - destruct Hpost as (p & info & chunks & counted & Hp & Hinfo & _ & _ & _ & _
                         & Hh & _).
    split_and!.
    + unfold Tally.sum. simpl. lia.
    + intros q Hq. rewrite Hh. destruct (decide (p = q)) as [->|Hne];
        [by rewrite lookup_insert_eq|by rewrite lookup_insert_ne].
    + intros op. by refine (upToDate_insert s s' p info _ op Hinfo _ Hh).
    + intros _. eexists p, info, _. split_and!; [done|done| |];
        [by rewrite Hh, lookup_insert_eq|done].
  - destruct Hpost as (-> & p & info & record & Hp & Hinfo & Hrecord & Hhash).
    split_and!; [unfold Tally.sum; simpl; lia|done|done|].
    intros _. by exists p, info, record.
  - destruct Hpost as (Hpost & _).
    split_and!; [simpl; lia|by rewrite Hpost| |done].
    intros op (q & info & record & -> & Hinfo & Hq & Hhash).
    exists q, info, record. by rewrite Hpost.
Qed.

(** The loop never throws; its counters grow by the number of documents
    whose [try] block ran to its end; it only ever adds to the ledger. *)
Lemma processFiles_run documents c s :
  ∃ c' s',
    processFiles E documents c s = (Returned c', s') ∧
    Tally.sum c' = Tally.sum c + countIndexed E documents c s ∧
    countIndexed E documents c s ≤ length documents ∧
    (∀ p, is_Some (history s !! p) → is_Some (history s' !! p)) ∧
    (∀ op, upToDate E s op → upToDate E s' op) ∧
    (countIndexed E documents c s = length documents →
     ∀ op, op ∈ filePaths documents → upToDate E s' op).
Proof.
  revert c s. induction documents as [|doc rest IH]; intros c s.
  - exists c, s. cbn [processFiles countIndexed length].
    split_and!; [done|lia|lia|done|done|].
    intros _ op Hop. by apply not_elem_of_nil in Hop.
  - cbn [processFiles countIndexed length]. unfold bind at 1.
    destruct (processFile_step doc c s)
      as (c1 & s1 & -> & Hsum1 & Hmono1 & Hkeep1 & Hnew1).
    destruct (IH c1 s1) as (c' & s' & -> & Hsum & Hle & Hmono & Hkeep & Hall).
    exists c', s'. split; [done|].
    destruct (returns (indexFile E doc c s).1) eqn:Hok.
    + split_and!; [lia|lia|auto|auto|].
      intros Hcount op Hop. unfold filePaths in Hop. rewrite fmap_cons in Hop.
      apply elem_of_cons in Hop as [->|Hop].
      * apply Hkeep, Hnew1. done.
      * apply Hall; [lia|done].
    + split_and!; [lia|lia|auto|auto|]. intros Hcount. lia.
Qed.

(** The whole run, once the scan has returned: loop, then step 3. *)
Lemma incrementalIndexDirectory_run dirPath recursive s documents :
  DocumentLoader.loadFromDirectory (loadFromFile E) dirPath
    (readTree E dirPath) recursive = Returned documents →
  ∃ c s1 s',
    processFiles E documents Tally.zero s = (Returned c, s1) ∧
    removeDeleted E s1 = (Returned (length (missingPaths E s1)), s') ∧
    incrementalIndexDirectory E dirPath recursive s
    = (Returned {| added := Tally.added c; updated := Tally.updated c;
                   deleted := length (missingPaths E s1);
                   skipped := Tally.skipped c;
                   total := Tally.added c + Tally.updated c + Tally.skipped c |},
       s').
Proof.
  intros Hload.
  destruct (processFiles_run documents Tally.zero s) as (c & s1 & Hloop & _).
  destruct (removeDeleted_run s1) as (s' & Hdel & _).
  exists c, s1, s'. split_and!; [done|done|].
  unfold incrementalIndexDirectory. rewrite bind_lift, Hload.
  unfold bind at 1. rewrite Hloop. unfold bind. by rewrite Hdel.
Qed.

(** A failure of the scan itself (an entry that cannot be listed, a file the
    loader rejects) is not caught: the run throws before the loop starts. *)
Lemma incrementalIndexDirectory_scan_failure dirPath recursive s e :
  DocumentLoader.loadFromDirectory (loadFromFile E) dirPath
    (readTree E dirPath) recursive = Thrown e →
  incrementalIndexDirectory E dirPath recursive s = (Thrown e, s).
Proof.
  intros Hload. unfold incrementalIndexDirectory. by rewrite bind_lift, Hload.
Qed.

Lemma incrementalIndexDirectory_inv dirPath recursive s r s' :
  incrementalIndexDirectory E dirPath recursive s = (Returned r, s') →
  ∃ documents,
    DocumentLoader.loadFromDirectory (loadFromFile E) dirPath
      (readTree E dirPath) recursive = Returned documents.
Proof.
  unfold incrementalIndexDirectory. rewrite bind_lift.
  destruct (DocumentLoader.loadFromDirectory _ _ _ _) as [documents|e];
    [by exists documents|done].
Qed.

(** C5. Count conservation: once the scan has returned its documents the
    run returns a result, with added + updated + skipped = total, and total
    is the number of scanned files whose processing did not throw.  A file
    whose processing throws is caught on its own: the iteration returns, the
    counters are the ones it found, and the ledger is untouched. *)
Theorem count_conservation dirPath recursive s documents :
  DocumentLoader.loadFromDirectory (loadFromFile E) dirPath
    (readTree E dirPath) recursive = Returned documents →
  (∃ r s',
     incrementalIndexDirectory E dirPath recursive s = (Returned r, s') ∧
     added r + updated r + skipped r = total r ∧
     total r = countIndexed E documents Tally.zero s ∧
     total r ≤ length documents) ∧
  (∀ doc c s0,
     returns (indexFile E doc c s0).1 = false →
     ∃ s1, processFile E doc c s0 = (Returned c, s1) ∧
           history s1 = history s0).
Proof.
  intros Hload. split.
  - destruct (incrementalIndexDirectory_run dirPath recursive s documents Hload)
      as (c & s1 & s' & Hloop & _ & ->).
    destruct (processFiles_run documents Tally.zero s)
      as (c' & s1' & Hloop' & Hsum & Hle & _).
    rewrite Hloop in Hloop'. injection Hloop' as <- <-.
    eexists _, s'. split; [reflexivity|]. cbn [added updated skipped total].
    unfold Tally.sum in Hsum. cbn in Hsum. split_and!; lia.
  - intros doc c s0 Hfail.
    destruct (processFile_branches doc c s0) as (b & s1 & Hrun & Hret & Hpost).
    rewrite Hfail in Hret. destruct b; try done.
    exists s1. by destruct Hpost.
Qed.

(** C4. Deletion detection: after the loop, the run takes every path the
    ledger records and asks the file system for it.  The paths that are not
    there are listed once each, counted in [deleted], and their records
    removed; every other record stays, scanned or not. *)
Theorem deletion_detection dirPath recursive s r s' :
  incrementalIndexDirectory E dirPath recursive s = (Returned r, s') →
  ∃ documents c s1,
    DocumentLoader.loadFromDirectory (loadFromFile E) dirPath
      (readTree E dirPath) recursive = Returned documents ∧
    processFiles E documents Tally.zero s = (Returned c, s1) ∧
    (findDeletedFiles E s1).1 = Returned (missingPaths E s1) ∧
    deleted r = length (missingPaths E s1) ∧
    NoDup (missingPaths E s1) ∧
    (∀ p, p ∈ missingPaths E s1 ↔
          is_Some (history s1 !! p) ∧ existsSync E p = false) ∧
    (∀ p, history s' !! p = if existsSync E p then history s1 !! p else None) ∧
    (∀ p, is_Some (history s !! p) → existsSync E p = false →
          p ∈ missingPaths E s1 ∧ history s' !! p = None) ∧
    (∀ p, is_Some (history s !! p) → existsSync E p = true →
          is_Some (history s' !! p)).
Proof.
  intros Hrun.
  destruct (incrementalIndexDirectory_inv _ _ _ _ _ Hrun) as [documents Hload].
  destruct (incrementalIndexDirectory_run dirPath recursive s documents Hload)
    as (c & s1 & s'' & Hloop & Hdel & Hrun').
  rewrite Hrun in Hrun'. injection Hrun' as -> <-.
  destruct (processFiles_run documents Tally.zero s)
    as (c' & s1' & Hloop' & _ & _ & Hmono & _).
  rewrite Hloop in Hloop'. injection Hloop' as <- <-.
  destruct (removeDeleted_run s1) as (s2 & Hdel' & Hlookup & _).
  rewrite Hdel in Hdel'. injection Hdel' as <-.
  exists documents, c, s1. split_and!; try done.
  - apply NoDup_missingPaths.
  - apply elem_of_missingPaths.
  - intros p Hp Hex. split.
    + apply elem_of_missingPaths. auto.
    + by rewrite Hlookup, Hex.
  - intros p Hp Hex. rewrite Hlookup, Hex. auto.
Qed.

(** C3. Change detection: [hasChanged] answers true exactly when the path
    has no record or its recorded hash differs; and a scanned file that has a
    record with another hash is never counted as skipped.  Nothing is asked
    of the modification times.  When chunking and the vector store do not
    fail it is counted as updated, its chunks are upserted and its record is
    overwritten with the new hash; when they fail the counters stay put. *)
Theorem change_detection doc c s p info record :
  Loaded.metadata doc !! "filePath" = Some p →
  getFileInfo E p = Returned info →
  history s !! p = Some record →
  hash record ≠ fileHash info →
  (∀ filePath currentHash,
     (hasChanged filePath currentHash s).2 = s ∧
     ((hasChanged filePath currentHash s).1 = Returned true ↔
      history s !! filePath = None ∨
      ∃ old, history s !! filePath = Some old ∧ hash old ≠ currentHash)) ∧
  (hasChanged p (fileHash info) s).1 = Returned true ∧
  ∃ c' s',
    processFile E doc c s = (Returned c', s') ∧
    Tally.skipped c' = Tally.skipped c ∧
    Tally.added c' = Tally.added c ∧
    (c' = tallyAfter Changed c ∨ c' = c ∧ history s' = history s) ∧
    (∀ chunks counted,
       splitTexts E [Loaded.content doc] (Some [Loaded.metadata doc])
       = Returned chunks →
       vectorStoreAdd E (vectorStore s) chunks = Returned tt →
       splitTexts E [Loaded.content doc] None = Returned counted →
       c' = tallyAfter Changed c ∧
       vectorStore s' = vectorStore s ++ chunks ∧
       history s'
       = <[p := {| hash := fileHash info;
                   modifiedTime := fileModifiedTime info;
                   chunkCount := length counted;
                   indexedAt := toISOString E (dateCalls s) |}]> (history s)).
Proof.
  intros Hp Hinfo Hrecord Hne. split_and!.
  - intros filePath currentHash. split; [done|apply hasChanged_true].
  - apply hasChanged_true. right. by exists record.
  - destruct (processFile_branches doc c s) as (b & s' & Hrun & _ & Hpost).
    exists (tallyAfter b c), s'. split; [done|].
    destruct b.
    + destruct Hpost as (p' & info' & _ & _ & Hp' & _ & Hnone & _).
      congruence.
    + destruct Hpost as (p' & info' & chunks & counted & Hp' & Hinfo' & _
                           & Hsplit & Hadd & Hcount & Hh & Hv).
      assert (p' = p) as -> by congruence.
      assert (info' = info) as -> by congruence.
      split_and!; [done|done|by left|].
      intros chunks' counted' Hsplit' Hadd' Hcount'.
      assert (chunks' = chunks) as -> by congruence.
      assert (counted' = counted) as -> by congruence.
      done.
    + destruct Hpost as (_ & p' & info' & record' & Hp' & Hinfo' & Hrecord'
                           & Hhash).
      assert (p' = p) as -> by congruence.
      assert (info' = info) as -> by congruence.
      congruence.
    + destruct Hpost as (Hh & _ & Hno).
      split_and!; [done|done|by right|].
      intros chunks counted Hsplit Hadd Hcount.
      destruct (Hno p info Hp Hinfo). by exists chunks, counted.
Qed.

End ReconciliationFacts.

(** ** Two runs in a row *)

Section Idempotence.
Import IndexingHistory Rag.

Lemma processFile_upToDate E doc c s :
  upToDate E s (Loaded.metadata doc !! "filePath") →
  processFile E doc c s = (Returned (tallyAfter Unchanged c), s).
Proof.
  intros Hup.
  destruct (processFile_branches E doc c s) as (b & s' & Hrun & _ & Hpost).
  destruct Hup as (p & info & record & Hp & Hinfo & Hrecord & Hhash).
  destruct b.
  - destruct Hpost as (p' & _ & _ & _ & Hp' & _ & Hnone & _). congruence.
  - destruct Hpost as (p' & info' & _ & _ & Hp' & Hinfo' & (old & Hold & Hne)
                         & _).
    assert (p' = p) as -> by congruence.
    assert (info' = info) as -> by congruence.
    congruence.
  - by destruct Hpost as [-> _].
  - destruct Hpost as (_ & Hno & _). destruct Hno.
    by exists p, info, record.
Qed.

Lemma processFiles_upToDate E documents c s :
  (∀ op, op ∈ filePaths documents → upToDate E s op) →
  processFiles E documents c s
  = (Returned {| Tally.added := Tally.added c;
                 Tally.updated := Tally.updated c;
                 Tally.skipped := Tally.skipped c + length documents |}, s).
Proof.
  revert c. induction documents as [|doc rest IH]; intros c Hall.
  - cbn [processFiles length]. unfold ret. destruct c. simpl.
    by rewrite Nat.add_0_r.
  - cbn [processFiles length]. unfold bind.
    rewrite processFile_upToDate by (apply Hall, list_elem_of_here).
    rewrite IH.
    + unfold tallyAfter. cbn. do 3 f_equal. lia.
    + intros op Hop. apply Hall. unfold filePaths. rewrite fmap_cons.
      by apply list_elem_of_further.
Qed.

Lemma missingPaths_nil E s :
  (∀ p, is_Some (history s !! p) → existsSync E p = true) →
  missingPaths E s = [].
Proof.
  intros Hall. destruct (missingPaths E s) as [|p rest] eqn:Hmissing; [done|].
  assert (p ∈ missingPaths E s) as Hin
    by (rewrite Hmissing; apply list_elem_of_here).
  apply elem_of_missingPaths in Hin as [Hp Hex].
  apply Hall in Hp. congruence.
Qed.

Lemma removeDeleted_nothing E s :
  missingPaths E s = [] → removeDeleted E s = (Returned 0, s).
Proof.
  intros Hmissing.
  assert (findDeletedFiles E s = (Returned (missingPaths E s), s)) as Hfind
    by done.
  unfold removeDeleted. unfold bind at 1. by rewrite Hfind, Hmissing.
Qed.

(** C1. Idempotence: let a first run process every scanned file without a
    failure, and let a second run find the same paths with the same content
    hashes, nothing having left the disk.  Then the second run adds, updates
    and deletes nothing, skips as many files as the first run counted in
    [total], and leaves ledger, ledger file and vector store as they were. *)
Theorem reconciliation_idempotent E1 E2 dirPath recursive
    s0 documents1 documents2 r1 s1 :
  DocumentLoader.loadFromDirectory (loadFromFile E1) dirPath
    (readTree E1 dirPath) recursive = Returned documents1 →
  DocumentLoader.loadFromDirectory (loadFromFile E2) dirPath
    (readTree E2 dirPath) recursive = Returned documents2 →
  filePaths documents2 = filePaths documents1 →
  (∀ p info, Some p ∈ filePaths documents1 →
             getFileInfo E1 p = Returned info →
             ∃ info', getFileInfo E2 p = Returned info' ∧
                      fileHash info' = fileHash info) →
  (∀ p info, Some p ∈ filePaths documents1 →
             getFileInfo E1 p = Returned info → existsSync E1 p = true) →
  (∀ p, existsSync E1 p = true → existsSync E2 p = true) →
  incrementalIndexDirectory E1 dirPath recursive s0 = (Returned r1, s1) →
  total r1 = length documents1 →
  incrementalIndexDirectory E2 dirPath recursive s1
  = (Returned {| added := 0; updated := 0; deleted := 0;
                 skipped := total r1; total := total r1 |}, s1).
Proof.
  intros Hload1 Hload2 Hpaths Hhash Hscanned Hdisk Hrun1 Htotal.
  destruct (incrementalIndexDirectory_run E1 dirPath recursive s0 documents1
              Hload1) as (c & sa & s1' & Hloop & Hdel & Hrun1').
  rewrite Hrun1 in Hrun1'. injection Hrun1' as -> <-.
  cbn [total] in Htotal.
  destruct (processFiles_run E1 documents1 Tally.zero s0)
    as (c' & sa' & Hloop' & Hsum & _ & _ & _ & Hall).
  rewrite Hloop in Hloop'. injection Hloop' as <- <-.
  unfold Tally.sum in Hsum. cbn in Hsum.
  assert (countIndexed E1 documents1 Tally.zero s0 = length documents1)
    as Hcount by lia.
  specialize (Hall Hcount).
  destruct (removeDeleted_run E1 sa) as (s1' & Hdel' & Hlookup & _).
  rewrite Hdel in Hdel'. injection Hdel' as <-.
  assert (∀ op, op ∈ filePaths documents2 → upToDate E2 s1 op) as Hup.
  { intros op Hop. rewrite Hpaths in Hop.
    destruct (Hall op Hop) as (p & info & record & -> & Hinfo & Hrecord & Hh).
    destruct (Hhash p info Hop Hinfo) as (info' & Hinfo' & Hsame).
    exists p, info', record. split_and!; [done|done| |congruence].
    by rewrite Hlookup, (Hscanned p info Hop Hinfo). }
  assert (missingPaths E2 s1 = []) as Hmissing.
  { apply missingPaths_nil. intros p [record Hp]. apply Hdisk.
    rewrite Hlookup in Hp. by destruct (existsSync E1 p). }
  unfold incrementalIndexDirectory. rewrite bind_lift, Hload2.
  unfold bind at 1. rewrite (processFiles_upToDate E2 documents2 _ s1 Hup).
  unfold bind. rewrite (removeDeleted_nothing E2 s1 Hmissing).
  unfold ret. cbn. do 2 f_equal.
  assert (length documents2 = length documents1) as ->.
  { apply (f_equal length) in Hpaths. unfold filePaths in Hpaths.
    by rewrite !length_fmap in Hpaths. }
  f_equal; lia.
Qed.

End Idempotence.

(** ** The directory scan *)

Section ScanFacts.
Import DocumentLoader.

Lemma Node_nested_ind (P : Node → Prop) :
  P File → P Dangling →
  (∀ items, Forall (λ entry, P entry.2) items → P (Dir items)) →
  ∀ node, P node.
Proof.
  intros HFile HDangling HDir. fix IH 1. intros [|items|]; [done| |done].
  apply HDir. induction items as [|[name child] rest IHrest]; constructor.
  - apply IH.
  - apply IHrest.
Qed.

Lemma scanItems_found scan dirPath recursive items acc files :
  scanItems scan dirPath recursive items acc = Returned files →
  ∃ found,
    files = acc ++ found ∧
    (∀ p, p ∈ found ↔
          (∃ item, (item, File) ∈ items ∧ Js.startsWith item "." = false ∧
                   p = path_join dirPath item) ∨
          (∃ name sub under,
             recursive = true ∧ (name, Dir sub) ∈ items ∧
             scan (path_join dirPath name) (Dir sub) = Returned under ∧
             p ∈ under)) ∧
    (recursive = true → ∀ name sub,
       (name, Dir sub) ∈ items →
       ∃ under, scan (path_join dirPath name) (Dir sub) = Returned under).
Proof.
  revert acc. induction items as [|[item stat] rest IH]; intros acc Hscan.
  - injection Hscan as <-. exists []. split_and!.
    + by rewrite app_nil_r.
    + intros p. split; [by intros ?%not_elem_of_nil|].
      intros [(? & ?%not_elem_of_nil & _)|(? & ? & ? & _ & ?%not_elem_of_nil & _)];
        done.
    + by intros _ ? ? ?%not_elem_of_nil.
  - cbn [scanItems] in Hscan. destruct stat as [|sub|]; [| |done].
    + (* a file *)
      destruct (Js.startsWith item ".") eqn:Hdot; cbn [negb] in Hscan;
        apply IH in Hscan as (found & -> & Hfound & Hsub).
      * exists found. split_and!; [done| |].
        -- intros p. rewrite Hfound. split.
           ++ intros [(i & Hi & ? & ?)|(n & sb & u & ? & Hn & ? & ?)].
              ** left. exists i. by rewrite elem_of_cons; auto.
              ** right. exists n, sb, u. by rewrite elem_of_cons; auto.
           ++ intros [(i & Hi & Hv & ?)|(n & sb & u & ? & Hn & ? & ?)].
              ** apply elem_of_cons in Hi as [[= -> ]|Hi]; [congruence|].
                 left. by exists i.
              ** apply elem_of_cons in Hn as [[=]|Hn].
                 right. by exists n, sb, u.
        -- intros Hr n sb [[=]|Hn]%elem_of_cons. by apply Hsub.
      * exists (path_join dirPath item :: found). split_and!.
        -- by rewrite <-app_assoc.
        -- intros p. rewrite elem_of_cons, Hfound. split.
           ++ intros [->|[(i & Hi & ? & ?)|(n & sb & u & ? & Hn & ? & ?)]].
              ** left. exists item. split_and!; [apply list_elem_of_here|done..].
              ** left. exists i. by rewrite elem_of_cons; auto.
              ** right. exists n, sb, u. by rewrite elem_of_cons; auto.
           ++ intros [(i & Hi & Hv & ->)|(n & sb & u & ? & Hn & ? & ?)].
              ** apply elem_of_cons in Hi as [[= -> ]|Hi]; [by left|].
                 right. left. by exists i.
              ** apply elem_of_cons in Hn as [[=]|Hn].
                 right. right. by exists n, sb, u.
        -- intros Hr n sb [[=]|Hn]%elem_of_cons. by apply Hsub.
    + (* a directory *)
      destruct recursive.
      * destruct (scan (path_join dirPath item) (Dir sub)) as [under|e]
          eqn:Hunder; [|done].
        cbn [obind] in Hscan.
        apply IH in Hscan as (found & -> & Hfound & Hsub).
        exists (under ++ found). split_and!.
        -- by rewrite <-app_assoc.
        -- intros p. rewrite elem_of_app, Hfound. split.
           ++ intros [Hp|[(i & Hi & ? & ?)|(n & sb & u & ? & Hn & ? & ?)]].
              ** right. exists item, sub, under.
                 split_and!; [done|apply list_elem_of_here|done..].
              ** left. exists i. by rewrite elem_of_cons; auto.
              ** right. exists n, sb, u. by rewrite elem_of_cons; auto.
           ++ intros [(i & Hi & Hv & ->)|(n & sb & u & ? & Hn & Hu & ?)].
              ** apply elem_of_cons in Hi as [[=]|Hi].
                 right. left. by exists i.
              ** apply elem_of_cons in Hn as [[= -> ->]|Hn].
                 --- left. congruence.
                 --- right. right. by exists n, sb, u.
        -- intros Hr n sb [[= -> ->]|Hn]%elem_of_cons; [by exists under|].
           by apply Hsub.
      * apply IH in Hscan as (found & -> & Hfound & Hsub).
        exists found. split_and!; [done| |done].
        intros p. rewrite Hfound. split.
        -- intros [(i & Hi & ? & ?)|(n & sb & u & ? & Hn & ? & ?)]; [|done].
           left. exists i. by rewrite elem_of_cons; auto.
        -- intros [(i & Hi & Hv & ->)|(n & sb & u & ? & Hn & Hu & ?)]; [|done].
           apply elem_of_cons in Hi as [[=]|Hi]. left. by exists i.
Qed.

(** C7 (as amended). A scan that returns, returns exactly the file entries
    it comes across whose own name does not start with a dot.  Directories
    are entered whatever their name when the scan is recursive, so a file
    with a plain name under a hidden directory is part of the result. *)
Theorem getAllFiles_skips_hidden_files dirPath node recursive files :
  getAllFiles dirPath node recursive = Returned files →
  ∀ p, p ∈ files ↔
       ∃ parent item,
         Reaches recursive dirPath node parent item ∧
         Js.startsWith item "." = false ∧
         p = path_join parent item.
Proof.
  revert dirPath files.
  induction node as [| |items IH] using Node_nested_ind;
    intros dirPath files Hscan; [done..|].
  cbn [getAllFiles] in Hscan.
  apply scanItems_found in Hscan as (found & -> & Hfound & Hsub).
  rewrite app_nil_l. intros p. rewrite Hfound. split.
  - intros [(item & Hitem & Hdot & ->)|(name & sub & under & Hr & Hname & Hunder & Hp)].
    + exists dirPath, item. split_and!; [by constructor|done..].
    + rewrite Forall_forall in IH.
      destruct (proj1 (IH (name, Dir sub) Hname _ _ Hunder p) Hp)
        as (parent & item & Hreach & Hdot & ->).
      exists parent, item. split_and!; [|done..].
      by eapply reaches_below.
  - intros (parent & item & Hreach & Hdot & ->).
    inversion Hreach as [? ? ? Hitem|? ? name sub ? ? Hr Hname Hbelow]; subst.
    + left. by exists item.
    + right. destruct (Hsub eq_refl name sub Hname) as [under Hunder].
      exists name, sub, under. split_and!; try done.
      rewrite Forall_forall in IH.
      apply (IH (name, Dir sub) Hname _ _ Hunder). by exists parent, item.
Qed.

End ScanFacts.

(** C7, the claim as stated fails: [.git] is a hidden entry, and the
    recursive scan returns the file [config] that lies under it (the hidden
    files [.env] and [.hidden.txt] are left out). *)
Lemma hidden_directory_is_scanned :
  Js.startsWith ".git" "." = true ∧
  DocumentLoader.getAllFiles "docs" Sample.docsTree true
  = Returned ["docs/.git/config"; "docs/a.txt"; "docs/sub/b.txt"].
Proof. by vm_compute. Qed.

Lemma getAllFiles_skips_hidden_files_witness :
  "docs/.git/config"
  ∈ ["docs/.git/config"; "docs/a.txt"; "docs/sub/b.txt"] ↔
  ∃ parent item,
    DocumentLoader.Reaches true "docs" Sample.docsTree parent item ∧
    Js.startsWith item "." = false ∧
    "docs/.git/config" = DocumentLoader.path_join parent item.
Proof.
  apply (getAllFiles_skips_hidden_files "docs" Sample.docsTree true).
  reflexivity.
Defined.

(** ** The properties on a sample corpus *)

Lemma sample_first_run : Sample.firstRun.1 = Returned Sample.firstResult.
Proof. by vm_compute. Qed.

Lemma sample_first_run_state :
  Rag.incrementalIndexDirectory Sample.world "docs" true Sample.earlierState
  = (Returned Sample.firstResult, Sample.firstRun.2).
Proof. by vm_compute. Qed.

Lemma reconciliation_idempotent_witness :
  Rag.incrementalIndexDirectory Sample.world "docs" true Sample.firstRun.2
  = (Returned {| Rag.added := 0; Rag.updated := 0; Rag.deleted := 0;
                 Rag.skipped := 2; Rag.total := 2 |}, Sample.firstRun.2).
Proof.
  apply (reconciliation_idempotent Sample.world Sample.world "docs" true
           Sample.earlierState Sample.scanned Sample.scanned
           Sample.firstResult Sample.firstRun.2).
  - reflexivity.
  - reflexivity.
  - reflexivity.
  - intros p info _ Hinfo. by exists info.
  - intros p info Hp _. unfold Rag.filePaths, Sample.scanned in Hp.
    rewrite !fmap_cons in Hp.
    repeat (apply elem_of_cons in Hp as [Hp|Hp];
            [by injection Hp as -> |]).
    by apply not_elem_of_nil in Hp.
  - done.
  - by vm_compute.
  - reflexivity.
Defined.

Lemma change_detection_witness :
  ∃ s',
    Rag.processFile Sample.world (Sample.textFile "docs/a.txt") Tally.zero
      Sample.earlierState
    = (Returned {| Tally.added := 0; Tally.updated := 1; Tally.skipped := 0 |},
       s') ∧
    hash <$> history s' !! "docs/a.txt"
    = Some "9e107d9d372bb6826bd81d3542a419d6".
Proof.
  destruct (change_detection Sample.world (Sample.textFile "docs/a.txt")
              Tally.zero Sample.earlierState "docs/a.txt"
              Sample.infoOfA Sample.recordOfA)
    as (_ & _ & c' & s' & Hrun & _ & _ & _ & Hindexed).
  - reflexivity.
  - reflexivity.
  - reflexivity.
  - discriminate.
  - destruct (Hindexed _ _ eq_refl eq_refl eq_refl) as (-> & _ & Hh).
    exists s'. split; [exact Hrun|].
    by rewrite Hh, lookup_insert_eq.
Defined.

Lemma deletion_detection_witness :
  Rag.deleted Sample.firstResult = 1 ∧
  history Sample.firstRun.2 !! "docs/gone.txt" = None ∧
  is_Some (history Sample.firstRun.2 !! "docs/a.txt").
Proof.
  destruct (deletion_detection Sample.world "docs" true Sample.earlierState
              Sample.firstResult Sample.firstRun.2)
    as (documents & c & s1 & _ & _ & _ & _ & _ & _ & _ & Hgone & Hkept).
  - by vm_compute.
  - split_and!.
    + reflexivity.
    + apply (Hgone "docs/gone.txt"); [|reflexivity].
      apply (bool_decide_unpack _). by vm_compute.
    + apply (Hkept "docs/a.txt"); [|reflexivity].
      apply (bool_decide_unpack _). by vm_compute.
Defined.

Lemma count_conservation_witness :
  ∃ r s',
    Rag.incrementalIndexDirectory Sample.world "docs" true Sample.earlierState
    = (Returned r, s') ∧
    Rag.added r + Rag.updated r + Rag.skipped r = Rag.total r ∧
    Rag.total r = 2.
Proof.
  destruct (count_conservation Sample.world "docs" true Sample.earlierState
              Sample.scanned)
    as [(r & s' & Hrun & Hsum & Hcount & _) _].
  - reflexivity.
  - exists r, s'. split_and!; [exact Hrun|exact Hsum|].
    rewrite Hcount. by vm_compute.
Defined.

(** On a read-only working directory [recordIndexing] still returns and
    records the file in memory, while the ledger file keeps the old map. *)
Example stale_ledger_file :
  let result :=
    IndexingHistory.recordIndexing Sample.readOnlyWorld "docs/b.txt"
      "e4d909c290d0fb1ca068ffaddf22cbd0" "2024-12-14T08:30:00.000Z" 1
      Sample.earlierState in
  result.1 = Returned tt ∧
  ledgerFile result.2 = Content (JsonOf Sample.earlierLedger) ∧
  Sample.earlierLedger !! "docs/b.txt" = None ∧
  chunkCount <$> history result.2 !! "docs/b.txt" = Some 1 ∧
  logged result.2 = [(Error, "히스토리 저장 실패: EROFS")].
Proof. by vm_compute. Qed.

(** * Further properties of the services *)

(** ** What [query] returns *)

Section QueryFacts.
Import Retrieval.
Variable toLowerCase : string → string.

Lemma take_nil_iff {A} (n : nat) (l : list A) :
  0 < n → take n l = [] ↔ l = [].
Proof. destruct n, l; simpl; intros ?; split; intros ?; try done; lia. Qed.

Lemma filter_all {A} (f : A → bool) (l : list A) (x : A) :
  x ∈ List.filter f l → x ∈ l ∧ f x = true.
Proof. rewrite !list_elem_of_In. apply filter_In. Qed.

(** The sources of an answer: at most four, all of them candidates of the
    search, and none at all only when the search found nothing. *)
Theorem query_sources_bounded Q question candidateDocs result :
  similaritySearch Q question 10 = Returned candidateDocs →
  query toLowerCase Q question = Returned result →
  length (sourceDocuments result) ≤ 4 ∧
  length (sourceDocuments result) ≤ length candidateDocs ∧
  (∀ doc, doc ∈ sourceDocuments result → doc ∈ candidateDocs) ∧
  (sourceDocuments result = [] ↔ candidateDocs = []).
Proof.
  intros Hsearch. unfold query. rewrite Hsearch. simpl.
  destruct (generateAnswer Q _ question) as [a|e]; simpl; [|done].
  intros [= <-]. simpl.
  destruct (relevantDocs_shape toLowerCase question candidateDocs)
    as [keep Hkeep].
  assert (relevantDocs toLowerCase question candidateDocs
            `sublist_of` candidateDocs) as Hsub.
  { rewrite Hkeep. etrans; [apply sublist_take|apply filter_sublist]. }
  split_and!.
  - rewrite Hkeep, length_take. lia.
  - by apply sublist_length.
  - intros doc Hdoc. by eapply elem_of_sublist.
  - clear Hkeep Hsub keep. unfold relevantDocs, Js.slice0.
    destruct (extractCompanyName toLowerCase question) as [companyName|];
      [|by apply take_nil_iff; lia].
    destruct (Js.truthy companyName); [|by apply take_nil_iff; lia].
    destruct (List.filter (matchesCompany toLowerCase companyName)
                candidateDocs) as [|doc rest] eqn:Hfilter;
      [by apply take_nil_iff; lia|].
    simpl. split; [done|]. intros ->. done.
Qed.

(** When the question names a company and some candidate matches it, every
    source matches it: candidates about another company never slip in to
    fill the four places. *)
Theorem query_sources_match Q question companyName candidateDocs result match_ :
  extractCompanyName toLowerCase question = Some companyName →
  similaritySearch Q question 10 = Returned candidateDocs →
  match_ ∈ candidateDocs →
  matchesCompany toLowerCase companyName match_ = true →
  query toLowerCase Q question = Returned result →
  sourceDocuments result
  = take 4 (List.filter (matchesCompany toLowerCase companyName) candidateDocs) ∧
  sourceDocuments result ≠ [] ∧
  ∀ doc, doc ∈ sourceDocuments result →
         matchesCompany toLowerCase companyName doc = true.
Proof.
  intros Hname Hsearch Hin Hmatch. unfold query. rewrite Hsearch. simpl.
  destruct (generateAnswer Q _ question) as [a|e]; simpl; [|done].
  intros [= <-]. simpl.
  assert (match_ ∈ List.filter (matchesCompany toLowerCase companyName)
                     candidateDocs) as Hfiltered.
  { rewrite list_elem_of_In. apply filter_In. by rewrite <-list_elem_of_In. }
  unfold relevantDocs, Js.slice0. rewrite Hname.
  rewrite (extractCompanyName_truthy _ _ _ Hname).
  destruct (List.filter _ candidateDocs) as [|doc rest] eqn:Hfilter;
    [by apply not_elem_of_nil in Hfiltered|].
  cbn [length Nat.ltb Nat.leb]. split_and!; [done|done|].
  intros d Hd. apply (λ H, elem_of_sublist _ _ _ H (sublist_take _ 4)) in Hd.
  rewrite <-Hfilter in Hd. by apply filter_all in Hd as [_ ?].
Qed.

End QueryFacts.

(** ** Recording, removing and counting *)

Section LedgerMore.
Import IndexingHistory.
Variable E : Env.

(** What [recordIndexing] has recorded is what the queries answer next,
    whether or not the ledger file could be written: the path is indexed, it
    has not changed for the recorded hash and has changed for any other, and
    the records of the other paths are the ones they were. *)
Theorem record_then_query filePath h mtime count s :
  ∃ s',
    recordIndexing E filePath h mtime count s = (Returned tt, s') ∧
    (isIndexed filePath s').1 = Returned true ∧
    (hasChanged filePath h s').1 = Returned false ∧
    (∀ other, other ≠ h → (hasChanged filePath other s').1 = Returned true) ∧
    (getFileIndexInfo filePath s').1
    = Returned (Some {| hash := h; modifiedTime := mtime; chunkCount := count;
                        indexedAt := toISOString E (dateCalls s) |}) ∧
    (∀ q, q ≠ filePath → history s' !! q = history s !! q) ∧
    dateCalls s' = Datatypes.S (dateCalls s) ∧
    writeCalls s' = Datatypes.S (writeCalls s).
Proof.
  assert (∃ s', recordIndexing E filePath h mtime count s = (Returned tt, s') ∧
                history s'
                = <[filePath := {| hash := h; modifiedTime := mtime;
                                   chunkCount := count;
                                   indexedAt := toISOString E (dateCalls s) |}]>
                    (history s) ∧
                dateCalls s' = Datatypes.S (dateCalls s) ∧
                writeCalls s' = Datatypes.S (writeCalls s))
    as (s' & Hrun & Hh & Hd & Hw).
  { unfold recordIndexing, nowISOString. unfold_monad. simpl.
    rewrite saveHistory_run. simpl.
    destruct (writeFileSync E (writeCalls s)) as [|e []]; by eexists. }
  exists s'. split; [done|].
  unfold isIndexed, hasChanged, getFileIndexInfo, gets. cbn [fst].
  rewrite Hh, lookup_insert_eq. cbn [hash].
  split_and!.
  - by rewrite bool_decide_eq_true_2.
  - by rewrite String.eqb_refl.
  - intros other Hother. destruct (String.eqb_spec h other); [by subst|done].
  - done.
  - intros q Hq. by rewrite lookup_insert_ne.
  - done.
  - done.
Qed.

(** After [removeRecord] the path is as if never indexed; the other records
    are the ones they were; and the ledger file is written again even when
    the path had no record. *)
Theorem remove_then_query filePath s :
  ∃ s',
    removeRecord E filePath s = (Returned tt, s') ∧
    (isIndexed filePath s').1 = Returned false ∧
    (∀ h, (hasChanged filePath h s').1 = Returned true) ∧
    (getFileIndexInfo filePath s').1 = Returned None ∧
    (∀ q, q ≠ filePath → history s' !! q = history s !! q) ∧
    (history s !! filePath = None → history s' = history s) ∧
    writeCalls s' = Datatypes.S (writeCalls s).
Proof.
  assert (∃ s', removeRecord E filePath s = (Returned tt, s') ∧
                history s' = delete filePath (history s) ∧
                writeCalls s' = Datatypes.S (writeCalls s))
    as (s' & Hrun & Hh & Hw).
  { unfold removeRecord. unfold_monad. simpl.
    rewrite saveHistory_run. simpl.
    destruct (writeFileSync E (writeCalls s)) as [|e []]; by eexists. }
  exists s'. split; [done|].
  unfold isIndexed, hasChanged, getFileIndexInfo, gets. cbn [fst].
  rewrite Hh, lookup_delete_eq.
  split_and!.
  - rewrite bool_decide_eq_false_2; [done|]. by intros [? ?].
  - done.
  - done.
  - intros q Hq. by rewrite lookup_delete_ne.
  - intros Hnone. by apply delete_id.
  - done.
Qed.

End LedgerMore.

(** ** Statistics *)

Section StatsFacts.
Import IndexingHistory.
Variable E : Env.
Variable greater : string → string → bool.

Lemma foldl_addRecord_chunks records acc :
  (foldl (addRecord greater) acc records).1
  = acc.1 + sum_list_with chunkCount records.
Proof.
  revert acc. induction records as [|r records IH]; intros [n last]; simpl.
  - lia.
  - rewrite IH. simpl. lia.
Qed.

Lemma sum_chunks_fmap (l : list (string * FileIndexInfo)) :
  sum_list_with chunkCount l.*2 = sum_list_with (λ entry, chunkCount entry.2) l.
Proof.
  induction l as [|[p r] l IH]; [done|].
  rewrite fmap_cons. cbn [sum_list_with snd]. by rewrite IH.
Qed.

Lemma getStats_totals s :
  ∃ last,
    getStats greater s
    = (Returned {| totalFiles := size (history s);
                   totalChunks := chunksOf (history s);
                   lastIndexedAt := last |}, s).
Proof.
  unfold getStats, gets.
  pose proof (foldl_addRecord_chunks (map_to_list (history s)).*2 (0, None))
    as Hsum.
  destruct (foldl _ _ _) as [n last]. simpl in Hsum. subst n.
  exists last. do 3 f_equal. apply sum_chunks_fmap.
Qed.

Lemma chunksOf_insert_fresh m p r :
  m !! p = None → chunksOf (<[p := r]> m) = chunkCount r + chunksOf m.
Proof.
  intros Hp. unfold chunksOf.
  by rewrite (sum_list_with_Permutation_proper _ _ _
                (map_to_list_insert m p r Hp)).
Qed.

Lemma chunksOf_delete m p r :
  m !! p = Some r → chunksOf m = chunkCount r + chunksOf (delete p m).
Proof.
  intros Hp. unfold chunksOf.
  by rewrite <-(sum_list_with_Permutation_proper _ _ _
                  (map_to_list_delete m p r Hp)).
Qed.

(** The totals of [getStats] follow the ledger: a first record of a path
    adds one file and its chunks, a re-record replaces the chunks of the old
    record, a removal takes the file and its chunks away, and after
    [clearHistory] everything is zero and [lastIndexedAt] is [null]. *)
Theorem stats_follow_ledger s :
  ∃ before,
    (getStats greater s).1 = Returned before ∧
    (∀ filePath h mtime count, ∃ after,
       (getStats greater (recordIndexing E filePath h mtime count s).2).1
       = Returned after ∧
       match history s !! filePath with
       | None =>
           totalFiles after = totalFiles before + 1 ∧
           totalChunks after = totalChunks before + count
       | Some old =>
           totalFiles after = totalFiles before ∧
           totalChunks after + chunkCount old = totalChunks before + count
       end) ∧
    (∀ filePath, ∃ after,
       (getStats greater (removeRecord E filePath s).2).1 = Returned after ∧
       match history s !! filePath with
       | None =>
           totalFiles after = totalFiles before ∧
           totalChunks after = totalChunks before
       | Some old =>
           totalFiles after + 1 = totalFiles before ∧
           totalChunks after + chunkCount old = totalChunks before
       end) ∧
    (getStats greater (clearHistory E s).2).1
    = Returned {| totalFiles := 0; totalChunks := 0; lastIndexedAt := None |}.
Proof.
  destruct (getStats_totals s) as [last Hbefore].
  eexists. split; [by rewrite Hbefore|]. cbn [totalFiles totalChunks].
  split_and!.
  - intros filePath h mtime count.
    destruct (recordIndexing_run E filePath h mtime count s)
      as (s' & Hrun & Hh & _).
    rewrite Hrun. cbn [snd].
    destruct (getStats_totals s') as [last' Hafter].
    eexists. split; [by rewrite Hafter|]. cbn [totalFiles totalChunks].
    rewrite Hh. destruct (history s !! filePath) as [old|] eqn:Hold.
    + split; [apply map_size_insert_Some; by eexists|].
      rewrite <-insert_delete_eq.
      rewrite chunksOf_insert_fresh by apply lookup_delete_eq.
      rewrite (chunksOf_delete (history s) filePath old Hold). simpl. lia.
    + split; [rewrite map_size_insert_None by done; lia|].
      rewrite chunksOf_insert_fresh by done. simpl. lia.
  - intros filePath.
    destruct (removeRecord_run E filePath s) as (s' & Hrun & Hh & _).
    rewrite Hrun. cbn [snd].
    destruct (getStats_totals s') as [last' Hafter].
    eexists. split; [by rewrite Hafter|]. cbn [totalFiles totalChunks].
    rewrite Hh. destruct (history s !! filePath) as [old|] eqn:Hold.
    + split.
      * rewrite map_size_delete_Some by by eexists.
        assert (size (history s) ≠ 0); [|lia].
        intros Hsize. apply map_size_empty_iff in Hsize.
        by rewrite Hsize, lookup_empty in Hold.
      * rewrite (chunksOf_delete (history s) filePath old Hold). lia.
    + by rewrite delete_id.
  - unfold clearHistory. unfold_monad. simpl. rewrite saveHistory_run.
    by destruct (writeFileSync E _) as [|e []].
Qed.

Lemma foldl_addRecord_last records n :
  (∀ a, greater a a = false) →
  (∀ a b c, greater a b = true → greater b c = true → greater a c = true) →
  (∀ a b, greater a EmptyString = false → greater a b = false) →
  let last := (foldl (addRecord greater) (n, None) records).2 in
  (last = None ↔ records = []) ∧
  ∀ l, last = Some l →
       (∃ r, r ∈ records ∧ indexedAt r = l) ∧
       ∀ r, r ∈ records → greater (indexedAt r) l = false.
Proof.
  intros Hirr Htrans Hleast.
  induction records as [|x records IH] using rev_ind; simpl.
  - split; [done|]. intros l [=].
  - rewrite foldl_snoc.
    destruct (foldl (addRecord greater) (n, None) records) as [m last].
    simpl in IH. destruct IH as [Hnone Hsome]. simpl.
    split.
    { split.
      - destruct last as [l|]; simpl; [destruct (_ || _)|]; done.
      - intros [_ [=]]%app_eq_nil. }
    intros l Hl.
    destruct last as [old|].
    + destruct (Hsome old eq_refl) as [(r & Hr & Hrold) Hmax].
      destruct (negb (Js.truthy old) || greater (indexedAt x) old) eqn:Htake;
        injection Hl as <-.
      * split; [exists x; split; [apply elem_of_app; right;
                                 apply list_elem_of_here|done]|].
        intros r' [Hr'|Hx%list_elem_of_singleton]%elem_of_app;
          [|subst r'; apply Hirr].
        apply orb_true_iff in Htake as [Hempty|Hgt].
        -- destruct old; [|done]. apply Hleast. by apply Hmax.
        -- destruct (greater (indexedAt r') (indexedAt x)) eqn:Hr'x; [|done].
           rewrite <-(Hmax r' Hr'). symmetry. by eapply Htrans.
      * split; [exists r; split; [apply elem_of_app; by left|done]|].
        intros r' [Hr'|Hx%list_elem_of_singleton]%elem_of_app;
          [by apply Hmax|subst r'].
        by apply orb_false_iff in Htake as [_ ?].
    + injection Hl as <-. assert (records = []) as -> by by apply Hnone.
      split; [exists x; split; [apply list_elem_of_here|done]|].
      intros r' Hx%list_elem_of_singleton. subst r'. apply Hirr.
Qed.

(** [lastIndexedAt] is [null] exactly for the empty ledger; otherwise it is
    the [indexedAt] of a record, and no record has a greater one. *)
Theorem stats_last_indexed s stats :
  (∀ a, greater a a = false) →
  (∀ a b c, greater a b = true → greater b c = true → greater a c = true) →
  (∀ a b, greater a EmptyString = false → greater a b = false) →
  (getStats greater s).1 = Returned stats →
  (lastIndexedAt stats = None ↔ history s = ∅) ∧
  ∀ last, lastIndexedAt stats = Some last →
          (∃ p r, history s !! p = Some r ∧ indexedAt r = last) ∧
          ∀ p r, history s !! p = Some r → greater (indexedAt r) last = false.
Proof.
  intros Hirr Htrans Hleast. unfold getStats, gets. cbn [fst].
  pose proof (foldl_addRecord_last (map_to_list (history s)).*2 0
                Hirr Htrans Hleast) as Hfold.
  destruct (foldl _ _ _) as [n last]. simpl in Hfold.
  intros [= <-]. cbn [lastIndexedAt]. destruct Hfold as [Hnone Hsome].
  assert (∀ r, r ∈ (map_to_list (history s)).*2 ↔
               ∃ p, history s !! p = Some r) as Hin.
  { intros r. rewrite list_elem_of_fmap. split.
    - intros ([p r'] & -> & Hp). exists p. by apply elem_of_map_to_list.
    - intros [p Hp]. exists (p, r). split; [done|].
      by apply elem_of_map_to_list. }
  split.
  - rewrite Hnone, <-map_to_list_empty_iff. split.
    + apply fmap_nil_inv.
    + by intros ->.
  - intros l Hl. destruct (Hsome l Hl) as [(r & Hr & Hrl) Hmax]. split.
    + apply Hin in Hr as [p Hp]. by exists p, r.
    + intros p r' Hp. apply Hmax, Hin. by exists p.
Qed.

End StatsFacts.

(** ** What a run keeps *)

Section RunInvariants.
Import IndexingHistory Rag.
Variable E : Env.
Variable P : State → Prop.
Hypothesis keeps_add :
  ∀ s documents, P s → P (vectorStore_addDocuments E documents s).2.
Hypothesis keeps_record :
  ∀ s p h mtime count, P s → P (recordIndexing E p h mtime count s).2.
Hypothesis keeps_remove : ∀ s p, P s → P (removeRecord E p s).2.
Hypothesis keeps_log : ∀ s level message, P s → P (addLog level message s).

Lemma addDocuments_keeps texts metadata s :
  P s → P (addDocuments E texts metadata s).2.
Proof using All.
  intros HP. unfold addDocuments. rewrite bind_lift.
  destruct (splitTexts E texts (Some metadata)); [by apply keeps_add|done].
Qed.

Lemma indexFile_keeps doc c s : P s → P (indexFile E doc c s).2.
Proof using All.
  intros HP.
  assert (∀ p info (c' : Tally.t),
    P ((exec addDocuments E [Loaded.content doc] [Loaded.metadata doc] in
        call chunkCount := getChunkCount E (Loaded.content doc) in
        exec recordIndexing E p (fileHash info) (fileModifiedTime info)
               chunkCount in
        ret c') s).2) as Hreindex.
  { intros p info c'. unfold bind at 1.
    pose proof (addDocuments_keeps [Loaded.content doc] [Loaded.metadata doc]
                  s HP) as HP1.
    destruct (addDocuments E _ _ s) as [[[]|e] s1]; [|done]. cbn [snd] in HP1.
    unfold bind at 1. unfold getChunkCount. rewrite bind_lift.
    destruct (splitTexts E [Loaded.content doc] None) as [counted|e]; [|done].
    unfold ret at 1. unfold bind.
    pose proof (keeps_record s1 p (fileHash info) (fileModifiedTime info)
                  (length counted) HP1) as HP2.
    by destruct (recordIndexing E _ _ _ _ s1) as [[[]|e] s2]. }
  unfold indexFile.
  destruct (Loaded.metadata doc !! "filePath") as [p|]; [|done].
  rewrite bind_lift. destruct (getFileInfo E p) as [info|e]; [|done].
  unfold isIndexed. rewrite bind_gets.
  destruct (bool_decide _); [|apply Hreindex].
  unfold hasChanged. rewrite bind_gets.
  destruct (match history s !! p with Some _ => _ | None => _ end);
    [apply Hreindex|done].
Qed.

Lemma processFile_keeps doc c s : P s → P (processFile E doc c s).2.
Proof using All.
  intros HP. unfold processFile, tryCatch.
  pose proof (indexFile_keeps doc c s HP) as HP1.
  destruct (indexFile E doc c s) as [[c'|e] s1]; [done|].
  unfold_monad. by apply keeps_log.
Qed.

Lemma processFiles_keeps documents c s :
  P s → P (processFiles E documents c s).2.
Proof using All.
  revert c s. induction documents as [|doc rest IH]; intros c s HP; [done|].
  cbn [processFiles]. unfold bind.
  pose proof (processFile_keeps doc c s HP) as HP1.
  destruct (processFile E doc c s) as [[c'|e] s1]; [by apply IH|done].
Qed.

Lemma forEach_removeRecord_keeps paths s :
  P s → P (forEach (removeRecord E) paths s).2.
Proof using All.
  revert s. induction paths as [|p paths IH]; intros s HP; [done|].
  cbn [forEach]. unfold bind.
  pose proof (keeps_remove s p HP) as HP1.
  destruct (removeRecord E p s) as [[[]|e] s1]; [by apply IH|done].
Qed.

Lemma removeDeleted_keeps s : P s → P (removeDeleted E s).2.
Proof using All.
  intros HP. unfold removeDeleted, findDeletedFiles. rewrite bind_gets.
  destruct (0 <? _)%nat; [|done].
  unfold bind.
  pose proof (forEach_removeRecord_keeps
                (List.filter (λ filePath, negb (existsSync E filePath))
                   (map_to_list (history s)).*1) s HP) as HP1.
  destruct (forEach _ _ s) as [[[]|e] s1]; [|done].
  unfold_monad. by apply keeps_log.
Qed.

Lemma incrementalIndexDirectory_keeps dirPath recursive s :
  P s → P (incrementalIndexDirectory E dirPath recursive s).2.
Proof using All.
  intros HP. unfold incrementalIndexDirectory. rewrite bind_lift.
  destruct (DocumentLoader.loadFromDirectory _ _ _ _) as [documents|e];
    [|done].
  unfold bind at 1.
  pose proof (processFiles_keeps documents Tally.zero s HP) as HP1.
  destruct (processFiles E documents Tally.zero s) as [[c|e] s1]; [|done].
  unfold bind.
  pose proof (removeDeleted_keeps s1 HP1) as HP2.
  by destruct (removeDeleted E s1) as [[n|e] s2].
Qed.

End RunInvariants.

(** ** The ledger file, the vector store and the ledger across operations *)

Section RunFacts.
Import IndexingHistory Rag.
Variable E : Env.

Lemma saveHistory_written s :
  writeFileSync E (writeCalls s) = Written →
  ledgerFile (saveHistory E s).2 = Content (JsonOf (history (saveHistory E s).2)).
Proof. intros Hw. by rewrite saveHistory_run, Hw. Qed.

(** While every write succeeds, a run keeps the ledger file equal to the
    ledger in memory, so that a service constructed afterwards starts from
    exactly the state the run left. *)
Theorem ledger_file_in_sync dirPath recursive s :
  (∀ n, writeFileSync E n = Written) →
  ledgerFile s = Content (JsonOf (history s)) →
  let s' := (incrementalIndexDirectory E dirPath recursive s).2 in
  ledgerFile s' = Content (JsonOf (history s')) ∧
  construct s' = (Returned tt, s').
Proof.
  intros Hwrites Hsync s'.
  assert (ledgerFile s' = Content (JsonOf (history s'))) as Hsync'.
  { apply (incrementalIndexDirectory_keeps E
             (λ s, ledgerFile s = Content (JsonOf (history s)))); [| | | |done].
    - intros s0 documents. unfold vectorStore_addDocuments.
      by destruct (vectorStoreAdd E _ _).
    - intros s0 p h mtime count _. unfold recordIndexing, nowISOString.
      unfold_monad. simpl. by apply saveHistory_written.
    - intros s0 p _. unfold removeRecord. unfold_monad. simpl.
      by apply saveHistory_written.
    - done. }
  split; [done|].
  rewrite construct_run, Hsync'. by destruct s'.
Qed.


(** The full indexing of a directory does not know the ledger: it leaves
    the records and the ledger file as they are, so a later incremental run
    sees none of the files it indexed.  It is all or nothing: it counts the
    files of the scan and upserts their chunks in one call, or it throws and
    has changed no state. *)
Theorem full_index_ignores_ledger dirPath recursive s :
  ∃ outcome s',
    loadDocumentsFromDirectory E dirPath recursive s = (outcome, s') ∧
    history s' = history s ∧ ledgerFile s' = ledgerFile s ∧
    match outcome with
    | Returned filesProcessed =>
        ∃ files documents chunks,
          DocumentLoader.getAllFiles dirPath (readTree E dirPath) recursive
          = Returned files ∧
          DocumentLoader.loadFromFiles (loadFromFile E) files
          = Returned documents ∧
          filesProcessed = length files ∧
          splitTexts E (Loaded.content <$> documents)
            (Some (Loaded.metadata <$> documents)) = Returned chunks ∧
          vectorStore s' = vectorStore s ++ chunks
    | Thrown _ => s' = s
    end.
Proof.
  unfold loadDocumentsFromDirectory, DocumentLoader.loadFromDirectory.
  rewrite bind_lift.
  destruct (DocumentLoader.getAllFiles _ _ _) as [files|e] eqn:Hscan;
    cbn [obind]; [|by eexists _, _].
  destruct (DocumentLoader.loadFromFiles _ files) as [documents|e] eqn:Hload;
    [|by eexists _, _].
  unfold bind, addDocuments. rewrite bind_lift.
  destruct (splitTexts E _ _) as [chunks|e] eqn:Hsplit; [|by eexists _, _].
  unfold vectorStore_addDocuments.
  destruct (vectorStoreAdd E _ _) as [[]|e]; [|by eexists _, _].
  eexists _, _. split_and!; try done.
  exists files, documents, chunks. split_and!; try done.
  clear -Hload. revert documents Hload.
  induction files as [|p files IH]; intros documents; simpl.
  - by intros [= <-].
  - destruct (loadFromFile E p); [|done]. simpl.
    destruct (DocumentLoader.loadFromFiles _ files); [|done]. simpl.
    intros [= <-]. simpl. f_equal. by apply IH.
Qed.

End RunFacts.

Section FreshLedger.
Import IndexingHistory Rag.
Variable E : Env.

(** Every record carries the hash its file has now. *)
Lemma processFiles_fresh documents c s c' s' :
  (∀ p record, history s !! p = Some record →
               ∃ info, getFileInfo E p = Returned info ∧
                       hash record = fileHash info) →
  processFiles E documents c s = (Returned c', s') →
  Tally.updated c' = Tally.updated c ∧
  ((∀ p, is_Some (history s !! p) → Some p ∉ filePaths documents) →
   NoDup (filePaths documents) →
   Tally.skipped c' = Tally.skipped c).
Proof.
  revert c s. induction documents as [|doc rest IH]; intros c s Hfresh.
  - cbn [processFiles]. by intros [= <- <-].
  - cbn [processFiles]. unfold bind.
    destruct (processFile_branches E doc c s) as (b & s1 & -> & _ & Hpost).
    intros Hrest.
    assert (b ≠ Changed ∧
            (∀ p record, history s1 !! p = Some record →
                         ∃ info, getFileInfo E p = Returned info ∧
                                 hash record = fileHash info) ∧
            (∀ q, is_Some (history s1 !! q) →
                  is_Some (history s !! q) ∨
                  Some q = Loaded.metadata doc !! "filePath") ∧
            (b = Unchanged →
             ∃ p, Loaded.metadata doc !! "filePath" = Some p ∧
                  is_Some (history s !! p)))
      as (Hb & Hfresh1 & Hkeys & Hskip).
    { destruct b.
      - destruct Hpost as (p & info & _ & counted & Hp & Hinfo & _ & _ & _ & _
                             & Hh & _).
        split_and!; [done| | |done].
        + intros q record. rewrite Hh.
          destruct (decide (p = q)) as [<-|Hne].
          * rewrite lookup_insert_eq. intros [= <-]. by exists info.
          * rewrite lookup_insert_ne by done. apply Hfresh.
        + intros q. rewrite Hh, Hp.
          destruct (decide (p = q)) as [<-|Hne]; [by right|].
          rewrite lookup_insert_ne by done. by left.
      - destruct Hpost as (p & info & _ & _ & Hp & Hinfo & (old & Hold & Hne)
                             & _).
        destruct (Hfresh p old Hold) as (info' & Hinfo' & Hsame). congruence.
      - destruct Hpost as (-> & p & info & record & Hp & _ & Hrecord & _).
        split_and!; [done|done|by left|].
        intros _. exists p. split; [done|by eexists].
      - destruct Hpost as (Hh & _). rewrite Hh.
        split_and!; [done|done|by left|done]. }
    destruct (IH _ _ Hfresh1 Hrest) as [Hupdated Hskipped].
    split.
    + rewrite Hupdated. by destruct b.
    + intros Hnew Hnodup. unfold filePaths in Hnew, Hnodup.
      rewrite fmap_cons in Hnew, Hnodup. apply NoDup_cons in Hnodup as [Hhead Htail].
      rewrite Hskipped; [| |done].
      * destruct b; try done.
        destruct (Hskip eq_refl) as (p & Hp & Hin).
        destruct (Hnew p Hin). rewrite Hp. apply list_elem_of_here.
      * intros q Hq Hin. destruct (Hkeys q Hq) as [Hold|Hdoc].
        -- apply (Hnew q Hold). by apply list_elem_of_further.
        -- apply Hhead. by rewrite <-Hdoc.
Qed.

(** After [clearIndexingHistory] the next run updates nothing; and when the
    scanned documents have distinct paths it skips nothing either: every
    file it manages to process is added anew. *)
Theorem run_after_clear dirPath recursive s documents r s' :
  DocumentLoader.loadFromDirectory (loadFromFile E) dirPath
    (readTree E dirPath) recursive = Returned documents →
  incrementalIndexDirectory E dirPath recursive (clearIndexingHistory E s).2
  = (Returned r, s') →
  updated r = 0 ∧
  (NoDup (filePaths documents) → skipped r = 0 ∧ added r = total r).
Proof.
  intros Hload Hrun.
  assert (history (clearIndexingHistory E s).2 = ∅) as Hempty.
  { unfold clearIndexingHistory, clearHistory. unfold_monad. simpl.
    rewrite saveHistory_run. by destruct (writeFileSync E _) as [|e []]. }
  destruct (incrementalIndexDirectory_run E dirPath recursive
              (clearIndexingHistory E s).2 documents Hload)
    as (c & s1 & s2 & Hloop & _ & Hrun').
  rewrite Hrun in Hrun'. injection Hrun' as -> _.
  cbn [updated skipped added total].
  destruct (processFiles_fresh _ _ _ _ _
              ltac:(by intros p record; rewrite Hempty, lookup_empty) Hloop)
    as [Hupdated Hskipped].
  split; [done|]. intros Hnodup.
  rewrite Hskipped; [|by intros p [? Hp]; rewrite Hempty, lookup_empty in Hp|done].
  rewrite Hupdated. simpl. split; [done|lia].
Qed.

End FreshLedger.

Section ControllerFacts.
Import IndexingHistory Rag.
Variable E : Env.

(** [POST /rag/reset-history] answers success whatever happens to the ledger
    file.  When the write fails and leaves the file as it was, the ledger is
    empty in memory only: a service constructed afterwards has the old
    records again. *)
Theorem reset_lost_on_restart s records e :
  ledgerFile s = Content (JsonOf records) →
  writeFileSync E (writeCalls s) = WriteFailed e false →
  ∃ s1 s2,
    RagController.resetHistory E s
    = (Returned (RagController.Success "인덱싱 히스토리가 초기화되었습니다."), s1) ∧
    history s1 = ∅ ∧
    construct s1 = (Returned tt, s2) ∧
    history s2 = records.
Proof.
  intros Hfile Hwrite.
  unfold RagController.resetHistory, clearIndexingHistory, clearHistory.
  unfold_monad. simpl. rewrite saveHistory_run. simpl. rewrite Hwrite.
  eexists _, _. split_and!; [reflexivity|done| |].
  - apply construct_run.
  - simpl. by rewrite Hfile.
Qed.

(** [POST /rag/incremental-index] never throws.  It answers with the failure
    of the scan when the directory cannot be scanned or one of its files
    cannot be loaded, and otherwise with the result of the run, failures of
    single files included; without [recursive] in the body the scan is
    recursive. *)
Theorem incrementalIndex_reply body s :
  match DocumentLoader.loadFromDirectory (loadFromFile E)
          (RagController.dirPath body)
          (readTree E (RagController.dirPath body))
          (RagController.recursiveOf body) with
  | Thrown e =>
      RagController.incrementalIndex E body s
      = (Returned (RagController.Failure e), s)
  | Returned documents =>
      ∃ r s',
        incrementalIndexDirectory E (RagController.dirPath body)
          (RagController.recursiveOf body) s = (Returned r, s') ∧
        RagController.incrementalIndex E body s
        = (Returned
             (RagController.Success
                (r, "증분 인덱싱 완료: 추가 " +:+ pretty (added r) +:+
                    "개, 업데이트 " +:+ pretty (updated r) +:+
                    "개, 스킵 " +:+ pretty (skipped r) +:+ "개")), s')
  end ∧
  (RagController.recursive body = None →
   RagController.incrementalIndex E body s
   = RagController.incrementalIndex E
       {| RagController.dirPath := RagController.dirPath body;
          RagController.recursive := Some true |} s).
Proof.
  split; [|by intros Hnone; unfold RagController.incrementalIndex,
             RagController.recursiveOf; rewrite Hnone].
  unfold RagController.incrementalIndex, tryCatch.
  destruct (DocumentLoader.loadFromDirectory _ _ _ _) as [documents|e] eqn:Hload.
  - destruct (incrementalIndexDirectory_run E _ _ s documents Hload)
      as (c & s1 & s' & _ & _ & Hrun).
    eexists _, s'. split; [exact Hrun|].
    unfold bind. by rewrite Hrun.
  - unfold bind.
    by rewrite (incrementalIndexDirectory_scan_failure E _ _ s e Hload).
Qed.


End ControllerFacts.

(** ** More on the directory scan and the loader *)

Section ScanMore.
Import DocumentLoader.

Lemma prefix_append (a b : string) : String.prefix a (a +:+ b) = true.
Proof.
  induction a as [|x a IH]; simpl; [by destruct b|].
  by destruct (Ascii.ascii_dec x x).
Qed.

Lemma prefix_append_inv (a b p : string) :
  String.prefix (a +:+ b) p = true → String.prefix a p = true.
Proof.
  revert p. induction a as [|x a IH]; intros p; [by destruct p|].
  destruct p as [|y p]; simpl; [done|].
  destruct (Ascii.ascii_dec x y); [apply IH|done].
Qed.

Lemma append_cons (x : Ascii.ascii) (a b : string) :
  String x a +:+ b = String x (a +:+ b).
Proof. done. Qed.

Lemma append_assoc (a b c : string) : (a +:+ b) +:+ c = a +:+ (b +:+ c).
Proof.
  induction a as [|x a IH]; [done|]. by rewrite !append_cons, IH.
Qed.




Lemma scanItems_flat scan dirPath items acc :
  Forall (λ entry, entry.2 ≠ Dangling) items →
  scanItems scan dirPath false items acc
  = Returned
      (acc ++ omap (λ '(item, stat),
                      match stat with
                      | File =>
                          if Js.startsWith item "." then None
                          else Some (path_join dirPath item)
                      | _ => None
                      end) items).
Proof.
  intros Hall. revert acc.
  induction Hall as [|[item stat] rest Hhead _ IH]; intros acc.
  - by rewrite app_nil_r.
  - cbn [scanItems omap]. destruct stat as [|sub|]; [| |by destruct Hhead].
    + destruct (Js.startsWith item ".") eqn:Hdot; cbn [negb]; rewrite IH;
        cbn -[Js.startsWith path_join]; rewrite Hdot; [done|].
      by rewrite <-app_assoc.
    + by rewrite IH.
Qed.

(** Without recursion a scan returns the files of the directory itself, in
    the order of the listing, minus those whose name starts with a dot; the
    subdirectories are not looked into. *)
Theorem getAllFiles_flat dirPath items :
  Forall (λ entry, entry.2 ≠ Dangling) items →
  getAllFiles dirPath (Dir items) false
  = Returned
      (omap (λ '(item, stat),
               match stat with
               | File =>
                   if Js.startsWith item "." then None
                   else Some (path_join dirPath item)
               | _ => None
               end) items).
Proof. intros Hall. cbn [getAllFiles]. by rewrite scanItems_flat. Qed.

(** [loadFromFiles] is all or nothing: it returns one document per path, in
    order, when every file loads, and throws as soon as one does not. *)
Theorem loadFromFiles_all_or_nothing loadFromFile filePaths :
  (∀ documents,
     loadFromFiles loadFromFile filePaths = Returned documents ↔
     Forall2 (λ p doc, loadFromFile p = Returned doc) filePaths documents) ∧
  (returns (loadFromFiles loadFromFile filePaths) = false ↔
   ∃ p, p ∈ filePaths ∧ returns (loadFromFile p) = false).
Proof.
  induction filePaths as [|p rest [IHall IHfail]].
  - split.
    + intros documents. simpl. split.
      * intros [= <-]. constructor.
      * by intros ->%Forall2_nil_inv_l.
    + simpl. split; [done|]. by intros (? & ?%not_elem_of_nil & _).
  - split.
    + intros documents. cbn [loadFromFiles].
      destruct (loadFromFile p) as [doc|e] eqn:Hp; cbn [obind].
      * destruct (loadFromFiles loadFromFile rest) as [docs|e] eqn:Hrest;
          cbn [obind].
        -- split.
           ++ intros [= <-]. constructor; [done|]. by apply IHall.
           ++ intros (doc' & docs' & Hdoc & Hdocs & ->)%Forall2_cons_inv_l.
              apply IHall in Hdocs. congruence.
        -- split; [done|].
           intros (doc' & docs' & _ & Hdocs & ->)%Forall2_cons_inv_l.
           by apply IHall in Hdocs.
      * split; [done|].
        intros (doc' & docs' & Hdoc & _ & ->)%Forall2_cons_inv_l. congruence.
    + cbn [loadFromFiles].
      destruct (loadFromFile p) as [doc|e] eqn:Hp; cbn [obind].
      * destruct (loadFromFiles loadFromFile rest) as [docs|e] eqn:Hrest;
          cbn [obind returns] in *.
        -- split; [done|]. intros (q & [->|Hq]%elem_of_cons & Hfail).
           ++ by rewrite Hp in Hfail.
           ++ apply IHfail. by exists q.
        -- split; [|done]. intros _.
           destruct (proj1 IHfail eq_refl) as (q & Hq & Hfail).
           exists q. split; [by apply list_elem_of_further|done].
      * split; [|done]. intros _. exists p.
        split; [apply list_elem_of_here|by rewrite Hp].
Qed.

End ScanMore.

(** ** JSON documents as text *)

Section JsonFacts.
Import JsonText.

Lemma Json_nested_ind (P : Json → Prop) :
  P JNull → (∀ b, P (JBool b)) → (∀ text, P (JNumber text)) →
  (∀ s, P (JString s)) →
  (∀ items, Forall P items → P (JArray items)) →
  (∀ entries, Forall (λ entry, P entry.2) entries → P (JObject entries)) →
  ∀ data, P data.
Proof.
  intros HNull HBool HNumber HString HArray HObject. fix IH 1.
  intros [|b|text|s|items|entries]; [done..| |].
  - apply HArray. induction items as [|item rest IHrest]; constructor.
    + apply IH.
    + apply IHrest.
  - apply HObject. induction entries as [|[key value] rest IHrest]; constructor.
    + apply IH.
    + apply IHrest.
Qed.


(** Every line of [traverse] starts with the prefix it was called with, so
    the lines of a nested value all carry the path of that value. *)
Theorem traverse_lines_prefixed data prefix line :
  line ∈ traverse data prefix → String.prefix prefix line = true.
Proof.
  revert prefix line.
  induction data as [|b|text|s|items IH|entries IH] using Json_nested_ind;
    intros prefix line.
  - by intros ?%not_elem_of_nil.
  - intros ->%list_elem_of_singleton. apply prefix_append.
  - intros ->%list_elem_of_singleton. apply prefix_append.
  - intros ->%list_elem_of_singleton. apply prefix_append.
  - cbn [traverse]. generalize 0.
    induction IH as [|item rest Hitem _ IHrest]; intros index;
      [by intros ?%not_elem_of_nil|].
    intros [Hline|Hline]%elem_of_app; [|by eapply IHrest].
    destruct (isObject item).
    + apply Hitem in Hline. by apply prefix_append_inv in Hline.
    + apply list_elem_of_singleton in Hline as ->.
      unfold indexed. rewrite append_assoc. apply prefix_append.
  - cbn [traverse].
    induction IH as [|[key value] rest Hvalue _ IHrest];
      [by intros ?%not_elem_of_nil|].
    intros [Hline|Hline]%elem_of_app; [|by apply IHrest].
    apply Hvalue in Hline. unfold keyed in Hline.
    destruct prefix as [|c prefix]; [by destruct line|].
    by apply prefix_append_inv in Hline.
Qed.

End JsonFacts.


(** ** The vector store service *)

Section VectorStoreFacts.
Import VectorStoreService.
Variable Q : Type.
Variable D : Qdrant Q.

(** A search that throws is what [RagService.query] throws and what
    [POST /rag/query] answers with; the language model is not consulted, so
    no answer is ever made from no context.  Before the store exists the
    error is the service's own. *)
Theorem query_search_failure toLowerCase first200 generateAnswer store
    question e :
  (similaritySearch Q D question 10 store).1 = Thrown e →
  Retrieval.query toLowerCase (queryEnvOf D store generateAnswer) question
  = Thrown e ∧
  RagController.query toLowerCase first200
    (queryEnvOf D store generateAnswer) question
  = RagController.Failure e ∧
  (store = None → e = notInitialized).
Proof.
  intros Hsearch.
  assert (Retrieval.query toLowerCase (queryEnvOf D store generateAnswer)
            question = Thrown e) as Hquery.
  { unfold Retrieval.query, queryEnvOf. simpl. by rewrite Hsearch. }
  split_and!; [done| |].
  - unfold RagController.query. by rewrite Hquery.
  - intros ->. revert Hsearch. unfold similaritySearch. unfold_monad.
    by intros [= <-].
Qed.

(** A store that could not be created when the module started is created by
    the first [addDocuments] that succeeds, from the documents of that call;
    until then searching throws, and from then on searches and additions go
    to that store, which is never replaced by a later [addDocuments]. *)
Theorem store_created_on_first_add e documents store more question k :
  newStore Q D = Thrown e →
  fromDocuments Q D documents = Returned store →
  onModuleInit Q D None = (Returned tt, None) ∧
  similaritySearch Q D question k None = (Thrown notInitialized, None) ∧
  addDocuments Q D documents None = (Returned tt, Some store) ∧
  similaritySearch Q D question k (Some store)
  = (storeSearch Q D store question k, Some store) ∧
  addDocuments Q D more (Some store) = (storeAdd Q D store more, Some store).
Proof.
  intros Hnew Hfrom.
  unfold onModuleInit, initializeVectorStore, addDocuments, similaritySearch.
  unfold_monad. by rewrite Hnew, Hfrom.
Qed.

(** No operation of the service throws away a store it has: [onModuleInit]
    never throws and keeps the old store when a new one cannot be created,
    and a failed [addDocuments] or search leaves the field as it was. *)
Theorem store_never_lost (current : option Q) documents question k :
  (∃ store', onModuleInit Q D current = (Returned tt, store') ∧
             (is_Some current → is_Some store') ∧
             (∀ e, newStore Q D = Thrown e → store' = current)) ∧
  (is_Some current →
   (addDocuments Q D documents current).2 = current) ∧
  (∀ e, (addDocuments Q D documents current).1 = Thrown e →
        (addDocuments Q D documents current).2 = current) ∧
  (similaritySearch Q D question k current).2 = current.
Proof.
  unfold onModuleInit, initializeVectorStore, addDocuments, similaritySearch.
  unfold_monad. split_and!.
  - destruct (newStore Q D) as [store|e]; eexists; (split; [done|]);
      split; try done.
  - intros [store ->]. by destruct (storeAdd Q D store documents).
  - intros e. destruct current as [store|].
    + by destruct (storeAdd Q D store documents).
    + by destruct (fromDocuments Q D documents).
  - destruct current as [store|]; [|done].
    by destruct (storeSearch Q D store question k).
Qed.

End VectorStoreFacts.

(** ** The sample inputs meet the preconditions *)

Lemma byteGreater_irreflexive a : Fixture.byteGreater a a = false.
Proof.
  induction a as [|x a IH]; simpl; [done|].
  by rewrite Nat.ltb_irrefl, Nat.eqb_refl.
Qed.

Lemma byteGreater_transitive a b c :
  Fixture.byteGreater a b = true → Fixture.byteGreater b c = true →
  Fixture.byteGreater a c = true.
Proof.
  revert b c. induction a as [|x a IH]; intros [|y b] [|z c]; simpl; try done.
  destruct (Nat.ltb_spec (Ascii.nat_of_ascii y) (Ascii.nat_of_ascii x)) as [Hyx|Hyx].
  - intros _.
    destruct (Nat.ltb_spec (Ascii.nat_of_ascii z) (Ascii.nat_of_ascii y)) as [Hzy|Hzy].
    + intros _.
      by destruct (Nat.ltb_spec (Ascii.nat_of_ascii z) (Ascii.nat_of_ascii x)); [|lia].
    + destruct (Nat.eqb_spec (Ascii.nat_of_ascii y) (Ascii.nat_of_ascii z)) as [Heq|Hne];
        [|done].
      intros _.
      by destruct (Nat.ltb_spec (Ascii.nat_of_ascii z) (Ascii.nat_of_ascii x)); [|lia].
  - destruct (Nat.eqb_spec (Ascii.nat_of_ascii x) (Ascii.nat_of_ascii y)) as [Hxy|Hxy];
      [|done].
    intros Hab. rewrite Hxy.
    destruct (Nat.ltb_spec (Ascii.nat_of_ascii z) (Ascii.nat_of_ascii y)) as [Hzy|Hzy];
      [done|].
    destruct (Nat.eqb_spec (Ascii.nat_of_ascii y) (Ascii.nat_of_ascii z)) as [Heq|Hne];
      [|done].
    intros Hbc. by apply (IH b c).
Qed.

Lemma byteGreater_least a b :
  Fixture.byteGreater a EmptyString = false → Fixture.byteGreater a b = false.
Proof. by destruct a. Qed.

Lemma query_sources_bounded_witness :
  ∃ result,
    Retrieval.query Js.toLowerCaseAscii
      (Sample.searchReturning Sample.candidates) "쿠팡 복지" = Returned result ∧
    length (sourceDocuments result) ≤ 4 ∧
    length (sourceDocuments result) ≤ length Sample.candidates ∧
    (∀ doc, doc ∈ sourceDocuments result → doc ∈ Sample.candidates) ∧
    (sourceDocuments result = [] ↔ Sample.candidates = []).
Proof.
  eexists. split; [reflexivity|].
  apply (query_sources_bounded Js.toLowerCaseAscii
           (Sample.searchReturning Sample.candidates) "쿠팡 복지");
    reflexivity.
Defined.

Lemma query_sources_match_witness :
  ∃ result,
    Retrieval.query Js.toLowerCaseAscii
      (Sample.searchReturning Sample.candidates) "쿠팡 복지" = Returned result ∧
    sourceDocuments result
    = take 4 (List.filter (Retrieval.matchesCompany Js.toLowerCaseAscii "쿠팡")
                Sample.candidates) ∧
    sourceDocuments result ≠ [] ∧
    ∀ doc, doc ∈ sourceDocuments result →
           Retrieval.matchesCompany Js.toLowerCaseAscii "쿠팡" doc = true.
Proof.
  eexists. split; [reflexivity|].
  apply (query_sources_match Js.toLowerCaseAscii
           (Sample.searchReturning Sample.candidates) "쿠팡 복지" "쿠팡"
           Sample.candidates _ Sample.coupangChunk).
  - reflexivity.
  - reflexivity.
  - unfold Sample.candidates. apply list_elem_of_further, list_elem_of_here.
  - reflexivity.
  - reflexivity.
Defined.

Lemma stats_last_indexed_witness :
  (IndexingHistory.getStats Fixture.byteGreater Sample.firstRun.2).1
  = Returned {| IndexingHistory.totalFiles := 2;
                IndexingHistory.totalChunks := 2;
                IndexingHistory.lastIndexedAt :=
                  Some "2024-12-14T08:35:00.000Z" |} ∧
  ∀ p r, history Sample.firstRun.2 !! p = Some r →
         Fixture.byteGreater (indexedAt r) "2024-12-14T08:35:00.000Z" = false.
Proof.
  split; [by vm_compute|].
  destruct (stats_last_indexed Fixture.byteGreater Sample.firstRun.2
              {| IndexingHistory.totalFiles := 2;
                 IndexingHistory.totalChunks := 2;
                 IndexingHistory.lastIndexedAt :=
                   Some "2024-12-14T08:35:00.000Z" |}) as [_ Hlast].
  - apply byteGreater_irreflexive.
  - apply byteGreater_transitive.
  - apply byteGreater_least.
  - by vm_compute.
  - by destruct (Hlast _ eq_refl) as [_ Hmax].
Defined.

Lemma ledger_file_in_sync_witness :
  ledgerFile Sample.firstRun.2 = Content (JsonOf (history Sample.firstRun.2)) ∧
  IndexingHistory.construct Sample.firstRun.2 = (Returned tt, Sample.firstRun.2).
Proof.
  apply (ledger_file_in_sync Sample.world "docs" true Sample.earlierState).
  - reflexivity.
  - reflexivity.
Defined.

Lemma run_after_clear_witness :
  Fixture.afterClear = (Returned Fixture.allAdded, Fixture.afterClear.2) ∧
  Rag.updated Fixture.allAdded = 0 ∧
  (NoDup (Rag.filePaths Sample.scanned) →
   Rag.skipped Fixture.allAdded = 0 ∧
   Rag.added Fixture.allAdded = Rag.total Fixture.allAdded).
Proof.
  assert (Fixture.afterClear = (Returned Fixture.allAdded, Fixture.afterClear.2))
    as Hrun by (by vm_compute).
  split; [exact Hrun|].
  apply (run_after_clear Sample.world "docs" true Sample.earlierState
           Sample.scanned Fixture.allAdded Fixture.afterClear.2).
  - reflexivity.
  - exact Hrun.
Defined.

Lemma reset_lost_on_restart_witness :
  ∃ s1 s2,
    RagController.resetHistory Sample.readOnlyWorld Sample.earlierState
    = (Returned (RagController.Success "인덱싱 히스토리가 초기화되었습니다."), s1) ∧
    history s1 = ∅ ∧
    IndexingHistory.construct s1 = (Returned tt, s2) ∧
    history s2 = Sample.earlierLedger.
Proof.
  apply (reset_lost_on_restart Sample.readOnlyWorld Sample.earlierState
           Sample.earlierLedger "EROFS").
  - reflexivity.
  - reflexivity.
Defined.


Lemma getAllFiles_flat_witness :
  DocumentLoader.getAllFiles "docs" (DocumentLoader.Dir Fixture.listing) false
  = Returned ["docs/a.txt"; "docs/b.txt"].
Proof.
  apply (getAllFiles_flat "docs" Fixture.listing).
  unfold Fixture.listing. repeat (constructor; [simpl; discriminate|]).
  constructor.
Defined.

Lemma traverse_lines_prefixed_witness :
  "job.skills[1].name: Kotlin" ∈ JsonText.traverse Fixture.posting "job" ∧
  String.prefix "job" "job.skills[1].name: Kotlin" = true.
Proof.
  assert ("job.skills[1].name: Kotlin" ∈ JsonText.traverse Fixture.posting "job")
    as Hline by (apply (bool_decide_unpack _); by vm_compute).
  split; [exact Hline|].
  apply (traverse_lines_prefixed Fixture.posting "job"). exact Hline.
Defined.

Lemma query_search_failure_witness :
  Retrieval.query Js.toLowerCaseAscii
    (queryEnvOf Fixture.lateStore None (λ context _, Returned context))
    "쿠팡 복지"
  = Thrown VectorStoreService.notInitialized ∧
  RagController.query Js.toLowerCaseAscii (String.substring 0 200)
    (queryEnvOf Fixture.lateStore None (λ context _, Returned context))
    "쿠팡 복지"
  = RagController.Failure VectorStoreService.notInitialized ∧
  (@None unit = None →
   VectorStoreService.notInitialized = VectorStoreService.notInitialized).
Proof.
  apply (query_search_failure unit Fixture.lateStore Js.toLowerCaseAscii
           (String.substring 0 200) (λ context _, Returned context) None "쿠팡 복지").
  reflexivity.
Defined.

Lemma store_created_on_first_add_witness :
  VectorStoreService.onModuleInit unit Fixture.lateStore None
  = (Returned tt, None) ∧
  VectorStoreService.similaritySearch unit Fixture.lateStore "쿠팡 복지" 10 None
  = (Thrown VectorStoreService.notInitialized, None) ∧
  VectorStoreService.addDocuments unit Fixture.lateStore Sample.candidates None
  = (Returned tt, Some tt) ∧
  VectorStoreService.similaritySearch unit Fixture.lateStore "쿠팡 복지" 10
    (Some tt)
  = (Returned (take 10 Sample.candidates), Some tt) ∧
  VectorStoreService.addDocuments unit Fixture.lateStore [Sample.lgChunk]
    (Some tt)
  = (Returned tt, Some tt).
Proof.
  apply (store_created_on_first_add unit Fixture.lateStore "ECONNREFUSED"
           Sample.candidates tt [Sample.lgChunk] "쿠팡 복지" 10).
  - reflexivity.
  - reflexivity.
Defined.
